(** * HCM: the KPI engine and the stop-clock ledger of [index.tsx]

    A shallow embedding of the algorithmic core of the single-file HCM
    service: the interval helpers ([overlapMs],
    [effectiveHoursExcludingStops]), the statistics helpers ([diffHours],
    [avg]), the report ([computeTop8]) and the two ledger routes that
    pause and resume a ticket's clock.

    Modelling decisions, fixed here once:
    - a [Date] is a valid instant; [getTime] is its time value, an integer
      number of milliseconds;
    - numbers come in two layers. In the first a JavaScript [number] is
      an exact rational or one of [NaN], [Infinity], [-Infinity]
      ([Num.number]); it carries what rounding cannot disturb: the
      interval arithmetic on whole milliseconds, orderings, ranges, the
      ledger, and the demo data, whose values doubles hold exactly. In
      the second ([Double]) a [number] is a binary64 double and [avg],
      [close72Rate], [eNPS] and [computeTop8] are written again on it,
      operation for operation; the statements about the value of an
      average or of a rounded rate are made there;
    - [new Date()] reads the clock; the reading is the argument [now], and
      every reading within one call is the same instant;
    - an optional field ([Date | null | undefined]) is an [option]; it is
      truthy exactly when it is [Some]. In [Double] a milestone of a
      requisition is what it can be at run time: absent, an instant, an
      invalid [Date], or a string left by [JSON.parse];
    - a call either returns or throws ([completion]); calling a method on
      [null] throws, and the non-null assertion [e!] is kept as a check. *)

From Stdlib Require Import ZArith QArith Qabs Qround String List Bool Lia Lqa.
From Stdlib Require Import Permutation.
From Stdlib Require Floats.
From stdpp Require gmap strings.
Import ListNotations.

Local Open Scope Z_scope.

(** ** JavaScript numbers *)

Module Num.

Inductive number : Type :=
| Fin (q : Q)
| NaN
| Infinity
| NegInfinity.

Definition ofZ (z : Z) : number := Fin (inject_Z z).
Definition ofNat (n : nat) : number := ofZ (Z.of_nat n).

(** [Number.isFinite] *)
Definition isFinite (x : number) : bool :=
  match x with Fin _ => true | _ => false end.

Definition neg (x : number) : number :=
  match x with
  | Fin q => Fin (- q)
  | NaN => NaN
  | Infinity => NegInfinity
  | NegInfinity => Infinity
  end.

Definition add (x y : number) : number :=
  match x, y with
  | Fin p, Fin q => Fin (p + q)
  | NaN, _ | _, NaN => NaN
  | Infinity, NegInfinity | NegInfinity, Infinity => NaN
  | Infinity, _ | _, Infinity => Infinity
  | NegInfinity, _ | _, NegInfinity => NegInfinity
  end.

Definition sub (x y : number) : number := add x (neg y).

(** the sign of a rational, as a comparison with zero *)
Definition sgn (q : Q) : comparison := (q ?= 0)%Q.

Definition signed_inf (c : comparison) : number :=
  match c with Gt => Infinity | Lt => NegInfinity | Eq => NaN end.

Definition flip (c : comparison) : comparison := CompOpp c.

Definition mul (x y : number) : number :=
  match x, y with
  | Fin p, Fin q => Fin (p * q)
  | NaN, _ | _, NaN => NaN
  | Fin p, Infinity | Infinity, Fin p => signed_inf (sgn p)
  | Fin p, NegInfinity | NegInfinity, Fin p => signed_inf (flip (sgn p))
  | Infinity, Infinity | NegInfinity, NegInfinity => Infinity
  | Infinity, NegInfinity | NegInfinity, Infinity => NegInfinity
  end.

Definition div (x y : number) : number :=
  match x, y with
  | Fin p, Fin q =>
      if Qeq_bool q 0 then signed_inf (sgn p) else Fin (p / q)
  | NaN, _ | _, NaN => NaN
  | Fin _, _ => Fin 0
  | Infinity, Fin q => if Qle_bool 0 q then Infinity else NegInfinity
  | NegInfinity, Fin q => if Qle_bool 0 q then NegInfinity else Infinity
  | _, _ => NaN
  end.

(** [x <= y]; every comparison with [NaN] is false *)
Definition leb (x y : number) : bool :=
  match x, y with
  | NaN, _ | _, NaN => false
  | Fin p, Fin q => Qle_bool p q
  | NegInfinity, _ | _, Infinity => true
  | _, _ => false
  end.

Definition geb (x y : number) : bool := leb y x.

(** [x < y] and [x > y] *)
Definition ltb (x y : number) : bool :=
  match x, y with
  | NaN, _ | _, NaN => false
  | Fin p, Fin q => negb (Qle_bool q p)
  | NegInfinity, NegInfinity => false
  | NegInfinity, _ => true
  | Infinity, _ => false
  | Fin _, Infinity => true
  | Fin _, NegInfinity => false
  end.

Definition gtb (x y : number) : bool := ltb y x.

(** [Math.abs] *)
Definition Math_abs (x : number) : number :=
  match x with
  | Fin q => Fin (Qabs q)
  | NaN => NaN
  | Infinity | NegInfinity => Infinity
  end.

(** [Math.round]: the nearest integer, a tie going up *)
Definition round_half_up (q : Q) : Z := Qfloor (q + (1 # 2)).

Definition Math_round (x : number) : number :=
  match x with
  | Fin q => ofZ (round_half_up q)
  | other => other
  end.

(** Two numbers denote the same value. *)
Definition eqv (x y : number) : Prop :=
  match x, y with
  | Fin p, Fin q => (p == q)%Q
  | NaN, NaN | Infinity, Infinity | NegInfinity, NegInfinity => True
  | _, _ => False
  end.

(** the same, for a metric that may be [null] *)
Definition eqv_opt (x y : option number) : Prop :=
  match x, y with
  | Some a, Some b => eqv a b
  | None, None => True
  | _, _ => False
  end.

End Num.

Export Num(number, Fin, NaN, Infinity, NegInfinity, Math_round).

Declare Scope num_scope.
Delimit Scope num_scope with num.
Bind Scope num_scope with Num.number.
Infix "+" := Num.add : num_scope.
Infix "-" := Num.sub : num_scope.
Infix "*" := Num.mul : num_scope.
Infix "/" := Num.div : num_scope.
Infix "<=?" := Num.leb : num_scope.
Infix ">=?" := Num.geb (at level 70) : num_scope.
Infix ">?" := Num.gtb (at level 70) : num_scope.
Infix "=n=" := Num.eqv (at level 70, no associativity).
Infix "=o=" := Num.eqv_opt (at level 70, no associativity).

(** ** Completions: a call returns a value or throws *)

Inductive completion (A : Type) : Type :=
| Return (a : A)
| Throw (error : string).
Arguments Return {A} a.
Arguments Throw {A} error.

Definition bind {A B} (m : completion A) (k : A -> completion B) : completion B :=
  match m with
  | Return a => k a
  | Throw e => Throw e
  end.

Notation "x <- m ;; k" := (bind m (fun x => k))
  (at level 62, m at next level, right associativity).

(** [xs.map(f)] for a callback that may throw *)
Fixpoint mapM {A B} (f : A -> completion B) (xs : list A) : completion (list B) :=
  match xs with
  | [] => Return []
  | x :: rest => y <- f x ;; ys <- mapM f rest ;; Return (y :: ys)
  end.

(** ** Types of [index.tsx] *)

Inductive TicketType := HIRING | ONBOARDING | PERFORMANCE | FAIRNESS | OTHER.
Inductive TicketStatus := OPEN | IN_PROGRESS | RESOLVED | CLOSED.

Definition TicketType_eqb (a b : TicketType) : bool :=
  match a, b with
  | HIRING, HIRING | ONBOARDING, ONBOARDING | PERFORMANCE, PERFORMANCE
  | FAIRNESS, FAIRNESS | OTHER, OTHER => true
  | _, _ => false
  end.

Definition TicketStatus_eqb (a b : TicketStatus) : bool :=
  match a, b with
  | OPEN, OPEN | IN_PROGRESS, IN_PROGRESS | RESOLVED, RESOLVED
  | CLOSED, CLOSED => true
  | _, _ => false
  end.

Record Date := mkDate { getTime : Z }.

Module Ticket.
Record t := mk {
  id : string;
  type : TicketType;
  status : TicketStatus;
  title : string;
  description : option string;
  createdAt : Date;
  closedAt : option Date
}.
End Ticket.

Module Requisition.
Record t := mk {
  id : string;
  ticketId : string;
  keyRole : bool;
  approvedAt : option Date;
  firstInterviewAt : option Date;
  offerSignedAt : option Date;
  onboardedAt : option Date
}.
End Requisition.

Module StopClock.
Record t := mk {
  id : string;
  ticketId : string;
  startAt : Date;
  endAt : option Date;
  reason : string
}.
End StopClock.

Module ENPSResponse.
Record t := mk { score : number; comment : option string }.
End ENPSResponse.

Module Report.
Record t := mk {
  ttp : option number;
  ttf : option number;
  close72Rate : option number;
  poolMultiple : option number;
  eNPS : option number
}.
End Report.

(** ** Helpers *)

(** truthiness of an optional object: [null] and [undefined] are falsy,
    every object (a [Date] too) is truthy *)
Definition truthy {A} (o : option A) : bool :=
  match o with Some _ => true | None => false end.

(** [d.getTime()] on a receiver that may be [null] *)
Definition getTime_of (d : option Date) : completion Z :=
  match d with
  | Some d => Return (getTime d)
  | None => Throw "TypeError: Cannot read properties of null (reading 'getTime')"
  end.

(** [e!] *)
Definition non_null {A} (o : option A) : completion A :=
  match o with
  | Some a => Return a
  | None => Throw "non-null assertion failed"
  end.

Definition HOURS : Z := 1000 * 60 * 60.

Definition diffHours (a b : option Date) : completion (option number) :=
  if truthy a && truthy b
  then ta <- getTime_of a ;; tb <- getTime_of b ;;
       Return (Some (Num.ofZ (ta - tb) / Num.ofZ HOURS)%num)
  else Return None.

(** [avg] in exact arithmetic: which elements enter, and when the result
    is [null], are those of the code; the sum and the quotient as the
    code rounds them are those of [Double.avg] *)
Definition avg (nums : list number) : option number :=
  let arr := filter Num.isFinite nums in
  if (0 <? length arr)%nat
  then Some (fold_left Num.add arr (Num.ofZ 0) / Num.ofNat (length arr))%num
  else None.

Definition overlapMs (aStart aEnd bStart bEnd : Date) : Z :=
  let s := Z.max (getTime aStart) (getTime bStart) in
  let e := Z.min (getTime aEnd) (getTime bEnd) in
  Z.max 0 (e - s).

Section Clock.

(** the reading of [new Date()] *)
Variable now : Date.

(** [s.endAt ?? new Date()] *)
Definition endAt_or_now (s : StopClock.t) : Date :=
  match StopClock.endAt s with Some d => d | None => now end.

Definition effectiveHoursExcludingStops
    (ticketId : string) (start end_ : Date) (stopClocks : list StopClock.t) : number :=
  let total := getTime end_ - getTime start in
  if total <=? 0 then Num.ofZ 0 else
  let stops := filter (fun s => String.eqb (StopClock.ticketId s) ticketId) stopClocks in
  let deducted :=
    fold_left (fun deducted s => deducted + overlapMs start end_ (StopClock.startAt s) (endAt_or_now s))
              stops 0 in
  let eff := Z.max 0 (total - deducted) in
  (Num.ofZ eff / Num.ofZ HOURS)%num.

(** the constants that [computeTop8] binds, in its order *)

Definition keyRole_interviewed_signed (r : Requisition.t) : bool :=
  Requisition.keyRole r && truthy (Requisition.firstInterviewAt r)
  && truthy (Requisition.offerSignedAt r).

Definition approved_onboarded (r : Requisition.t) : bool :=
  truthy (Requisition.approvedAt r) && truthy (Requisition.onboardedAt r).

Definition ttp (reqs : list Requisition.t) : completion (option number) :=
  hours <- mapM (fun r => d <- diffHours (Requisition.offerSignedAt r)
                                         (Requisition.firstInterviewAt r) ;;
                          non_null d)
                (filter keyRole_interviewed_signed reqs) ;;
  Return (avg hours).

Definition ttf (reqs : list Requisition.t) : completion (option number) :=
  hours <- mapM (fun r => d <- diffHours (Requisition.onboardedAt r)
                                         (Requisition.approvedAt r) ;;
                          non_null d)
                (filter approved_onboarded reqs) ;;
  Return (avg hours).

Definition fairness (ticketList : list Ticket.t) : list Ticket.t :=
  filter (fun t => TicketType_eqb (Ticket.type t) FAIRNESS) ticketList.

(** the callback of the second filter:
    [t.closedAt && effectiveHoursExcludingStops(...) <= 72] *)
Definition closed_within72 (stopClocks : list StopClock.t) (t : Ticket.t) : bool :=
  match Ticket.closedAt t with
  | Some closedAt =>
      (effectiveHoursExcludingStops (Ticket.id t) (Ticket.createdAt t) closedAt stopClocks
       <=? Num.ofZ 72)%num
  | None => false
  end.

Definition within72 (ticketList : list Ticket.t) (stopClocks : list StopClock.t) : nat :=
  length (filter (closed_within72 stopClocks) (fairness ticketList)).

(** the rate in exact arithmetic; the value that the code rounds, a
    double, is that of [Double.close72Rate] *)
Definition close72Rate (ticketList : list Ticket.t) (stopClocks : list StopClock.t)
    : option number :=
  if (0 <? length (fairness ticketList))%nat
  then Some (Math_round ((Num.ofNat (within72 ticketList stopClocks)
                          / Num.ofNat (length (fairness ticketList))) * Num.ofZ 100))%num
  else None.

Definition openReqs (ticketList : list Ticket.t) : nat :=
  length (filter (fun t => TicketType_eqb (Ticket.type t) HIRING
                           && (TicketStatus_eqb (Ticket.status t) OPEN
                               || TicketStatus_eqb (Ticket.status t) IN_PROGRESS))
                 ticketList).

Definition poolMultiple (ticketList : list Ticket.t) : option number :=
  if (0 <? openReqs ticketList)%nat then Some (Num.ofZ 3) else None.

Definition total (enps : list ENPSResponse.t) : nat := length enps.

Definition promoters (enps : list ENPSResponse.t) : nat :=
  length (filter (fun e => (ENPSResponse.score e >=? Num.ofZ 9)%num) enps).

Definition detractors (enps : list ENPSResponse.t) : nat :=
  length (filter (fun e => (ENPSResponse.score e <=? Num.ofZ 6)%num) enps).

(** the score in exact arithmetic; the value that the code rounds, a
    double, is that of [Double.eNPS] *)
Definition eNPS (enps : list ENPSResponse.t) : option number :=
  if (0 <? total enps)%nat
  then Some (Math_round (((Num.ofNat (promoters enps) / Num.ofNat (total enps))
                          - (Num.ofNat (detractors enps) / Num.ofNat (total enps)))
                         * Num.ofZ 100))%num
  else None.

Definition computeTop8 (ticketList : list Ticket.t) (reqs : list Requisition.t)
    (enps : list ENPSResponse.t) (stopClocks : list StopClock.t) : completion Report.t :=
  ttp <- ttp reqs ;;
  ttf <- ttf reqs ;;
  Return (Report.mk ttp ttf (close72Rate ticketList stopClocks)
                    (poolMultiple ticketList) (eNPS enps)).

End Clock.

(** ** The demo data of [runTests] *)

Section Demo.

Variable now : Date.

Definition hoursAgo (h : Z) : Date := mkDate (getTime now - h * HOURS).

Definition demoTickets : list Ticket.t :=
  [ Ticket.mk "F1" FAIRNESS CLOSED "公平申诉1" None (hoursAgo 60) (Some (hoursAgo 12));
    Ticket.mk "F2" FAIRNESS CLOSED "公平申诉2" None (hoursAgo 120) (Some (hoursAgo 20));
    Ticket.mk "R1" HIRING OPEN "B2B 销售总监" None (hoursAgo 10) None;
    Ticket.mk "R2" HIRING IN_PROGRESS "算法工程师" None (hoursAgo 20) None ].

Definition demoReqs : list Requisition.t :=
  [ Requisition.mk "RQ1" "R1" true (Some (hoursAgo 400)) (Some (hoursAgo 300))
                   (Some (hoursAgo 276)) (Some (hoursAgo 200));
    Requisition.mk "RQ2" "R2" true (Some (hoursAgo 500)) (Some (hoursAgo 250))
                   (Some (hoursAgo 202)) (Some (hoursAgo 140));
    Requisition.mk "RQ3" "X1" false (Some (hoursAgo 400)) None None (Some (hoursAgo 160));
    Requisition.mk "RQ4" "X2" false (Some (hoursAgo 200)) None None (Some (hoursAgo 80)) ].

Definition demoENPS : list ENPSResponse.t :=
  map (fun n => ENPSResponse.mk (Num.ofZ n) None) [10; 9; 9; 8; 7; 6; 0].

End Demo.

(** ** The stop-clock ledger of the store, and the routes that change it

    [store.stopClocks] is an array of references to [StopClock] objects.
    The store keeps the objects by reference ([objects]) and the array as
    the list of references in insertion order ([stopClocks]), so that a
    write through an alias of an element is a write to the element. *)

Module Ledger.
Import stdpp.base stdpp.option stdpp.list stdpp.fin_maps stdpp.gmap stdpp.strings.

Definition ref := nat.

Record Store := mkStore {
  objects : gmap ref StopClock.t;
  stopClocks : list ref
}.

Record Session := mkSession {
  sid : string;
  userId : string;
  name : option string;
  createdAt : Z;
  expiresAt : Z
}.

(** what [sendJSON] sends *)
Inductive Body := error_unauthorized | ok_true.
Record Response := mkResponse { statusCode : Z; body : Body }.

(** the array as the KPI engine reads it: the objects, in insertion order *)
Definition snapshot (st : Store) : list StopClock.t :=
  omap (fun l => objects st !! l) (stopClocks st).

(** [s.ticketId === id && !s.endAt], through the reference *)
Definition open_for (id : string) (h : gmap ref StopClock.t) (l : ref) : bool :=
  match h !! l with
  | Some s => String.eqb (StopClock.ticketId s) id && negb (truthy (StopClock.endAt s))
  | None => false
  end.

(** the object behind [l] is an interval of ticket [id] with [endAt = null] *)
Definition open_interval (id : string) (st : Store) (l : ref) : Prop :=
  exists s,
    objects st !! l = Some s /\ StopClock.ticketId s = id /\ StopClock.endAt s = None.

(** [latest.endAt = new Date()] *)
Definition set_endAt (now : Date) (s : StopClock.t) : StopClock.t :=
  StopClock.mk (StopClock.id s) (StopClock.ticketId s) (StopClock.startAt s)
               (Some now) (StopClock.reason s).

(** the body of [POST /api/tickets/:id/stop]; [cuid] is the identifier
    that [cuid()] draws *)
Definition pause (cuid id reason : string) (now : Date) (st : Store) : Store :=
  let l := fresh (dom (objects st)) in
  mkStore (<[l := StopClock.mk cuid id now None reason]> (objects st))
          (stopClocks st ++ [l]).

(** the body of [POST /api/tickets/:id/resume] *)
Definition resume (id : string) (now : Date) (st : Store) : Store :=
  let latest := List.find (open_for id (objects st)) (List.rev (stopClocks st)) in
  match latest with
  | Some l => mkStore (alter (set_endAt now) l (objects st)) (stopClocks st)
  | None => st
  end.

Definition route_stop (sess : option Session) (cuid id reason : string) (now : Date)
    (st : Store) : Store * Response :=
  match sess with
  | None => (st, mkResponse 401 error_unauthorized)
  | Some _ => (pause cuid id reason now st, mkResponse 200 ok_true)
  end.

Definition route_resume (sess : option Session) (id : string) (now : Date)
    (st : Store) : Store * Response :=
  match sess with
  | None => (st, mkResponse 401 error_unauthorized)
  | Some _ => (resume id now st, mkResponse 200 ok_true)
  end.

(** a ledger with two open intervals of ticket T1, the one added first
    starting later than the one added last *)
Definition two_pauses : Store :=
  mkStore (<[0%nat := StopClock.mk "a" "T1" (mkDate 200) None "first"]>
             (<[1%nat := StopClock.mk "b" "T1" (mkDate 100) None "second"]> ∅))
          [0%nat; 1%nat].

End Ledger.

(** ** The assertions of the built-in tests *)

(** [o ?? d] *)
Definition nullish {A} (o : option A) (d : A) : A :=
  match o with Some a => a | None => d end.

Definition approxEqual (a : option number) (b : number) (tol : number) : completion unit :=
  match a with
  | None => Throw "expected a number, got null"
  | Some a =>
      if (Num.Math_abs (a - b) >? tol)%num
      then Throw "expected value differs"
      else Return tt
  end.

(** the default [tol = 1e-6] *)
Definition tol : number := Fin (1 # 1000000).

(** [approxEqual(Math.round((r.ttp ?? 0) * 100) / 100, 36)] *)
Definition assert_ttp (r : Report.t) : completion unit :=
  approxEqual (Some (Math_round (nullish (Report.ttp r) (Num.ofZ 0) * Num.ofZ 100)
                     / Num.ofZ 100)%num)
              (Num.ofZ 36) tol.

(** [approxEqual(Math.round((r.ttf ?? 0) * 100) / 100, 180)] *)
Definition assert_ttf (r : Report.t) : completion unit :=
  approxEqual (Some (Math_round (nullish (Report.ttf r) (Num.ofZ 0) * Num.ofZ 100)
                     / Num.ofZ 100)%num)
              (Num.ofZ 180) tol.

(** ** Vocabulary of the specification

    The quantities the specification speaks of, written after its words
    and independently of the code above. *)

(** Two closed intervals of instants share an instant. *)
Definition intersects (aStart aEnd bStart bEnd : Date) : Prop :=
  exists t : Z,
    getTime aStart <= t <= getTime aEnd /\ getTime bStart <= t <= getTime bEnd.

(** [(end - start)] in hours *)
Definition window_hours (start end_ : Date) : Q :=
  inject_Z (getTime end_ - getTime start) / inject_Z HOURS.

(** how many elements of a list satisfy a test *)
Fixpoint count_if {A} (p : A -> bool) (l : list A) : nat :=
  match l with
  | [] => O
  | x :: rest => if p x then S (count_if p rest) else count_if p rest
  end.

(** the overlap of one stop interval with the window, an open-ended
    interval running until now *)
Definition stop_overlap (now start end_ : Date) (s : StopClock.t) : Z :=
  overlapMs start end_ (StopClock.startAt s) (endAt_or_now now s).

(** the sum, over the stop intervals of one ticket, of each interval's
    own overlap with the window *)
Fixpoint overlap_sum (now : Date) (ticketId : string) (start end_ : Date)
    (stops : list StopClock.t) : Z :=
  match stops with
  | [] => 0
  | s :: rest =>
      (if String.eqb (StopClock.ticketId s) ticketId
       then stop_overlap now start end_ s
       else 0) + overlap_sum now ticketId start end_ rest
  end.

(** the smallest interval that covers two stop intervals, and the
    interval they have in common *)
Definition hull_start (s1 s2 : StopClock.t) : Date :=
  mkDate (Z.min (getTime (StopClock.startAt s1)) (getTime (StopClock.startAt s2))).
Definition hull_end (now : Date) (s1 s2 : StopClock.t) : Date :=
  mkDate (Z.max (getTime (endAt_or_now now s1)) (getTime (endAt_or_now now s2))).
Definition common_start (s1 s2 : StopClock.t) : Date :=
  mkDate (Z.max (getTime (StopClock.startAt s1)) (getTime (StopClock.startAt s2))).
Definition common_end (now : Date) (s1 s2 : StopClock.t) : Date :=
  mkDate (Z.min (getTime (endAt_or_now now s1)) (getTime (endAt_or_now now s2))).

(** the finite elements of a list of numbers *)
Fixpoint finite_values (nums : list number) : list Q :=
  match nums with
  | [] => []
  | Fin q :: rest => q :: finite_values rest
  | _ :: rest => finite_values rest
  end.

Definition Qsum (qs : list Q) : Q := fold_right Qplus 0%Q qs.

(** the arithmetic mean of a non-empty list *)
Definition mean (qs : list Q) : Q := Qsum qs / inject_Z (Z.of_nat (length qs)).

(** the signed duration from [earlier] to [later], in hours *)
Definition signed_hours (earlier later : Date) : Q :=
  inject_Z (getTime later - getTime earlier) / inject_Z HOURS.

(** the durations that enter [ttp]: one per key-role requisition with both
    a first interview and a signed offer *)
Fixpoint ttp_durations (reqs : list Requisition.t) : list Q :=
  match reqs with
  | [] => []
  | r :: rest =>
      match Requisition.keyRole r, Requisition.firstInterviewAt r, Requisition.offerSignedAt r with
      | true, Some i, Some o => signed_hours i o :: ttp_durations rest
      | _, _, _ => ttp_durations rest
      end
  end.

(** the durations that enter [ttf]: one per requisition with both an
    approval and an onboarding *)
Fixpoint ttf_durations (reqs : list Requisition.t) : list Q :=
  match reqs with
  | [] => []
  | r :: rest =>
      match Requisition.approvedAt r, Requisition.onboardedAt r with
      | Some a, Some o => signed_hours a o :: ttf_durations rest
      | _, _ => ttf_durations rest
      end
  end.

(** a Fairness ticket that is closed with an effective duration of at
    most 72 hours *)
Definition fairness_closed_in_72h (now : Date) (stops : list StopClock.t) (t : Ticket.t) : bool :=
  TicketType_eqb (Ticket.type t) FAIRNESS
  && match Ticket.closedAt t with
     | Some c =>
         (effectiveHoursExcludingStops now (Ticket.id t) (Ticket.createdAt t) c stops
          <=? Num.ofZ 72)%num
     | None => false
     end.

Definition is_fairness (t : Ticket.t) : bool := TicketType_eqb (Ticket.type t) FAIRNESS.

Definition is_promoter (e : ENPSResponse.t) : bool := (ENPSResponse.score e >=? Num.ofZ 9)%num.
Definition is_detractor (e : ENPSResponse.t) : bool := (ENPSResponse.score e <=? Num.ofZ 6)%num.

(** a requisition that passes the filter of [ttp] or that of [ttf] *)
Definition enters_an_average (r : Requisition.t) : bool :=
  keyRole_interviewed_signed r || approved_onboarded r.

(** ** The eNPS route *)

(** [Math.min] and [Math.max] of two numbers: [NaN] when either is *)
Definition Math_min (x y : number) : number :=
  match x, y with
  | NaN, _ | _, NaN => NaN
  | _, _ => if (x <=? y)%num then x else y
  end.

Definition Math_max (x y : number) : number :=
  match x, y with
  | NaN, _ | _, NaN => NaN
  | _, _ => if (x <=? y)%num then y else x
  end.

(** [Math.max(0, Math.min(10, Number(body.score)))], on the number that
    [Number(body.score)] yields *)
Definition clamp_score (score : number) : number :=
  Math_max (Num.ofZ 0) (Math_min (Num.ofZ 10) score).

(** truthiness of an optional string: [undefined] and the empty string
    are falsy *)
Definition truthy_string (o : option string) : bool :=
  match o with
  | Some s => negb (String.eqb s "")
  | None => false
  end.

(** [POST /api/enps]: [score] and [comment] are the two fields of the body *)
Definition route_enps (sess : option Ledger.Session) (score : number)
    (comment : option string) (enps : list ENPSResponse.t)
    : list ENPSResponse.t * Ledger.Response :=
  match sess with
  | None => (enps, Ledger.mkResponse 401 Ledger.error_unauthorized)
  | Some _ =>
      (enps ++ [ENPSResponse.mk (clamp_score score)
                                (if truthy_string comment then comment else None)],
       Ledger.mkResponse 200 Ledger.ok_true)
  end.

(** a score that [POST /api/enps] can store: [NaN], or from 0 to 10 *)
Definition storable_score (x : number) : Prop :=
  match x with
  | Fin q => (0 <= q <= 10)%Q
  | NaN => True
  | Infinity | NegInfinity => False
  end.

(** ** Sessions

    [getSession] is modelled from the cookie value on: [sid] is what
    [parseCookies(...)['sid']] yields, [undefined] being [None]. The
    session identifier that [createSession] draws at random is its
    argument [sid]; its two readings of [Date.now()] are [created] and
    [read]. *)

Module Sessions.
Import Ledger.

Definition lifetime : Z := 7 * 24 * HOURS.

(** the [maxAge] of the cookie that [createSession] sets, in seconds *)
Definition cookie_maxAge : Z := 7 * 24 * 60 * 60.

Definition getSession (sid : option string) (now : Z) (sessions : list Session)
    : option Session :=
  let s :=
    match sid with
    | Some v =>
        if truthy_string sid
        then find (fun x => String.eqb (Ledger.sid x) v) sessions
        else None
    | None => None
    end in
  match s with
  | None => None
  | Some s => if expiresAt s <? now then None else Some s
  end.

Definition createSession (sid userId : string) (name : option string)
    (created read : Z) (sessions : list Session) : list Session :=
  sessions ++ [mkSession sid userId name created (read + lifetime)].

(** [GET /logout], on the store's sessions *)
Definition logout (sid : option string) (sessions : list Session) : list Session :=
  match sid with
  | Some v =>
      if truthy_string sid
      then filter (fun s => negb (String.eqb (Ledger.sid s) v)) sessions
      else sessions
  | None => sessions
  end.

End Sessions.

(** ** Vocabulary for the ledger as a list of intervals *)

(** an interval of ticket [id] that is still open *)
Definition is_open (id : string) (s : StopClock.t) : bool :=
  String.eqb (StopClock.ticketId s) id && negb (truthy (StopClock.endAt s)).

(** how many intervals of the ticket are open *)
Definition open_count (id : string) (l : list StopClock.t) : nat :=
  count_if (is_open id) l.

(** close the first open interval of the ticket, if there is one *)
Fixpoint close_first_open (id : string) (now : Date) (l : list StopClock.t)
    : list StopClock.t :=
  match l with
  | [] => []
  | s :: rest =>
      if is_open id s
      then Ledger.set_endAt now s :: rest
      else s :: close_first_open id now rest
  end.

(** close the last open interval of the ticket, if there is one *)
Definition close_last_open (id : string) (now : Date) (l : list StopClock.t)
    : list StopClock.t :=
  rev (close_first_open id now (rev l)).

Module LedgerState.
Import stdpp.base stdpp.option stdpp.list stdpp.fin_maps stdpp.gmap stdpp.strings.
Import Ledger.

(** the store [{ stopClocks: [] }] *)
Definition empty : Store := mkStore ∅ [].

(** every element of the array is an object of its own *)
Definition well_formed (st : Store) : Prop :=
  List.NoDup (stopClocks st)
  /\ forall l, In l (stopClocks st) -> exists s, objects st !! l = Some s.

End LedgerState.

(** ** The report on IEEE doubles

    The functions whose results show the rounding of double arithmetic
    ([avg], and the two rates that [Math.round] a quotient), once more,
    on binary64 numbers, operation for operation. Time values stay whole
    numbers of milliseconds: every instant of a [Date] is one that a
    double holds exactly, so the double difference of two of them is the
    exact difference, rounded once ([of_ms]). The requisitions are taken
    as they are at run time, where a milestone may also be an invalid
    [Date] or, read back from [requisitions.json], still a string. *)

Module Double.
Import Floats.

Local Open Scope Z_scope.

(** the double nearest to a whole number *)
Definition ofZ (z : Z) : float := SF2Prim (binary_normalize prec emax z 0 false).

(** the length of an array *)
Definition ofNat (n : nat) : float := ofZ (Z.of_nat n).

(** [Math.round]: the nearest whole number, a tie going up; a result of
    zero keeps the sign of the argument *)
Definition Math_round (x : float) : float :=
  match Prim2SF x with
  | S754_finite s m e =>
      if 0 <=? e then x
      else
        let sm := if s then Z.neg m else Z.pos m in
        let z := (2 * sm + 2 ^ (- e)) / 2 ^ (- e + 1) in
        if z =? 0 then (if s then neg_zero else zero) else ofZ z
  | _ => x
  end.

(** the rational that a finite double is *)
Definition toQ (x : float) : option Q :=
  match Prim2SF x with
  | S754_zero _ => Some 0%Q
  | S754_finite s m e => Some (inject_Z (if s then Z.neg m else Z.pos m) * Qpower 2 e)%Q
  | _ => None
  end.

Definition avg (nums : list float) : option float :=
  let arr := filter is_finite nums in
  if (0 <? length arr)%nat
  then Some (fold_left PrimFloat.add arr 0 / ofNat (length arr))%float
  else None.

(** a milestone field of a requisition at run time *)
Inductive milestone :=
| missing                (* null or undefined *)
| instant (d : Date)     (* a Date that holds an instant *)
| invalid_date           (* a Date that holds NaN *)
| text (s : string).     (* a timestamp that is still a string *)

Module RawRequisition.
Record t := mk {
  id : string;
  ticketId : string;
  keyRole : bool;
  approvedAt : milestone;
  firstInterviewAt : milestone;
  offerSignedAt : milestone;
  onboardedAt : milestone
}.
End RawRequisition.

Module Report.
Record t := mk {
  ttp : option float;
  ttf : option float;
  close72Rate : option float;
  poolMultiple : option float;
  eNPS : option float
}.
End Report.

(** truthiness: [null], [undefined] and the empty string are falsy *)
Definition truthy (m : milestone) : bool :=
  match m with
  | missing => false
  | text s => negb (String.eqb s "")
  | instant _ | invalid_date => true
  end.

(** [receiver.getTime()]: the time value, [None] being [NaN]; a string
    has no such method, and the error names the receiver *)
Definition getTime_of (receiver : string) (m : milestone) : completion (option Z) :=
  match m with
  | instant d => Return (Some (getTime d))
  | invalid_date => Return None
  | text _ => Throw ("TypeError: " ++ receiver ++ ".getTime is not a function")%string
  | missing => Throw "TypeError: Cannot read properties of null (reading 'getTime')"
  end.

(** [ta - tb] on two time values *)
Definition of_ms (ta tb : option Z) : float :=
  match ta, tb with
  | Some a, Some b => ofZ (a - b)
  | _, _ => nan
  end.

Definition diffHours (a b : milestone) : completion (option float) :=
  if truthy a && truthy b
  then ta <- getTime_of "a" a ;; tb <- getTime_of "b" b ;;
       Return (Some (of_ms ta tb / ofZ HOURS)%float)
  else Return None.

Definition keyRole_interviewed_signed (r : RawRequisition.t) : bool :=
  RawRequisition.keyRole r && truthy (RawRequisition.firstInterviewAt r)
  && truthy (RawRequisition.offerSignedAt r).

Definition approved_onboarded (r : RawRequisition.t) : bool :=
  truthy (RawRequisition.approvedAt r) && truthy (RawRequisition.onboardedAt r).

(** the non-null assertions [e!] are erased at run time; behind the
    filter [diffHours] never returns [null], so the check that stands
    for them is never the one that fails *)
Definition ttp (reqs : list RawRequisition.t) : completion (option float) :=
  hours <- mapM (fun r => d <- diffHours (RawRequisition.offerSignedAt r)
                                         (RawRequisition.firstInterviewAt r) ;;
                          non_null d)
                (filter keyRole_interviewed_signed reqs) ;;
  Return (avg hours).

Definition ttf (reqs : list RawRequisition.t) : completion (option float) :=
  hours <- mapM (fun r => d <- diffHours (RawRequisition.onboardedAt r)
                                         (RawRequisition.approvedAt r) ;;
                          non_null d)
                (filter approved_onboarded reqs) ;;
  Return (avg hours).

Definition close72Rate (now : Date) (ticketList : list Ticket.t)
    (stopClocks : list StopClock.t) : option float :=
  if (0 <? length (fairness ticketList))%nat
  then Some (Math_round ((ofNat (within72 now ticketList stopClocks)
                          / ofNat (length (fairness ticketList))) * 100))%float
  else None.

Definition poolMultiple (ticketList : list Ticket.t) : option float :=
  if (0 <? openReqs ticketList)%nat then Some 3%float else None.

Definition eNPS (enps : list ENPSResponse.t) : option float :=
  if (0 <? total enps)%nat
  then Some (Math_round (((ofNat (promoters enps) / ofNat (total enps))
                          - (ofNat (detractors enps) / ofNat (total enps)))
                         * 100))%float
  else None.

Definition computeTop8 (now : Date) (ticketList : list Ticket.t)
    (reqs : list RawRequisition.t) (enps : list ENPSResponse.t)
    (stopClocks : list StopClock.t) : completion Report.t :=
  ttp <- ttp reqs ;;
  ttf <- ttf reqs ;;
  Return (Report.mk ttp ttf (close72Rate now ticketList stopClocks)
                    (poolMultiple ticketList) (eNPS enps)).

(** *** Vocabulary of the specification, on doubles *)

(** the finite elements of a list *)
Fixpoint finite_elements (nums : list float) : list float :=
  match nums with
  | [] => []
  | x :: rest =>
      if is_nan x || is_infinity x then finite_elements rest
      else x :: finite_elements rest
  end.

(** the sum of a list, taken from the left, starting from zero *)
Definition sum_left (xs : list float) : float := fold_left PrimFloat.add xs 0%float.

(** the signed duration from [earlier] to [later], in hours *)
Definition signed_hours (earlier later : Date) : float :=
  (ofZ (getTime later - getTime earlier) / ofZ HOURS)%float.

Definition is_text (m : milestone) : bool :=
  match m with text _ => true | _ => false end.

(** the time value of a milestone that is a [Date] *)
Definition time_value (m : milestone) : option Z :=
  match m with
  | instant d => Some (getTime d)
  | _ => None
  end.

(** the hours from [earlier] to [later], [NaN] unless both are instants *)
Definition hours_between (later earlier : milestone) : float :=
  (of_ms (time_value later) (time_value earlier) / ofZ HOURS)%float.

(** the error of [diffHours(later, earlier)] when both are truthy: the
    first receiver that is a string *)
Definition getTime_error (later earlier : milestone) : option string :=
  (if is_text later then Some "TypeError: a.getTime is not a function"
   else if is_text earlier then Some "TypeError: b.getTime is not a function"
   else None)%string.

(** the error of the first element on which a callback throws *)
Fixpoint first_error {A} (err : A -> option string) (l : list A) : option string :=
  match l with
  | [] => None
  | x :: rest =>
      match err x with
      | Some e => Some e
      | None => first_error err rest
      end
  end.

(** a requisition whose milestones are [Date]s or absent, none a string *)
Definition revived (r : RawRequisition.t) : Prop :=
  is_text (RawRequisition.approvedAt r) = false
  /\ is_text (RawRequisition.firstInterviewAt r) = false
  /\ is_text (RawRequisition.offerSignedAt r) = false
  /\ is_text (RawRequisition.onboardedAt r) = false.

(** the durations that enter [ttp] and [ttf]: one per requisition whose
    two milestones are both instants (and, for [ttp], that is a key role) *)
Fixpoint ttp_durations (reqs : list RawRequisition.t) : list float :=
  match reqs with
  | [] => []
  | r :: rest =>
      match RawRequisition.keyRole r, RawRequisition.firstInterviewAt r,
            RawRequisition.offerSignedAt r with
      | true, instant i, instant o => signed_hours i o :: ttp_durations rest
      | _, _, _ => ttp_durations rest
      end
  end.

Fixpoint ttf_durations (reqs : list RawRequisition.t) : list float :=
  match reqs with
  | [] => []
  | r :: rest =>
      match RawRequisition.approvedAt r, RawRequisition.onboardedAt r with
      | instant a, instant o => signed_hours a o :: ttf_durations rest
      | _, _ => ttf_durations rest
      end
  end.

(** a requisition that passes a filter of [computeTop8] with a milestone
    that is still a string *)
Definition reaches_text (r : RawRequisition.t) : bool :=
  (keyRole_interviewed_signed r
   && (is_text (RawRequisition.firstInterviewAt r) || is_text (RawRequisition.offerSignedAt r)))
  || (approved_onboarded r
      && (is_text (RawRequisition.approvedAt r) || is_text (RawRequisition.onboardedAt r))).

(** a requisition as [loadStore] reads it back from [requisitions.json]:
    [iso] is the string that [JSON.stringify] wrote for a [Date] *)
Definition stored_milestone (iso : Date -> string) (d : option Date) : milestone :=
  match d with Some d => text (iso d) | None => missing end.

Definition stored (iso : Date -> string) (r : Requisition.t) : RawRequisition.t :=
  RawRequisition.mk (Requisition.id r) (Requisition.ticketId r) (Requisition.keyRole r)
                    (stored_milestone iso (Requisition.approvedAt r))
                    (stored_milestone iso (Requisition.firstInterviewAt r))
                    (stored_milestone iso (Requisition.offerSignedAt r))
                    (stored_milestone iso (Requisition.onboardedAt r)).

(** the same requisition in memory, every milestone a [Date] or absent *)
Definition in_memory_milestone (d : option Date) : milestone :=
  match d with Some d => instant d | None => missing end.

Definition in_memory (r : Requisition.t) : RawRequisition.t :=
  RawRequisition.mk (Requisition.id r) (Requisition.ticketId r) (Requisition.keyRole r)
                    (in_memory_milestone (Requisition.approvedAt r))
                    (in_memory_milestone (Requisition.firstInterviewAt r))
                    (in_memory_milestone (Requisition.offerSignedAt r))
                    (in_memory_milestone (Requisition.onboardedAt r)).

(** one tenth, as a double *)
Definition tenth : float := Eval vm_compute in (1 / 10)%float.

(** the greatest finite double *)
Definition MAX_VALUE : float := Eval vm_compute in (next_down infinity).

(** a list with [k] closed tickets, of one hour each, among [n] Fairness
    tickets, and one with [p] promoters and [d] detractors among [n]
    responses *)
Definition fairness_tickets (k n : nat) : list Ticket.t :=
  repeat (Ticket.mk "c" FAIRNESS CLOSED "closed" None (mkDate 0) (Some (mkDate HOURS))) k
  ++ repeat (Ticket.mk "o" FAIRNESS OPEN "open" None (mkDate 0) None) (n - k).

Definition responses (p d n : nat) : list ENPSResponse.t :=
  repeat (ENPSResponse.mk (Num.ofZ 10) None) p
  ++ repeat (ENPSResponse.mk (Num.ofZ 0) None) d
  ++ repeat (ENPSResponse.mk (Num.ofZ 8) None) (n - p - d).

End Double.

(** * Proofs *)

(** ** Numbers *)

Lemma HOURS_Q_pos : (0 < inject_Z HOURS)%Q.
Proof. reflexivity. Qed.

Lemma div_HOURS (z : Z) :
  (Num.ofZ z / Num.ofZ HOURS)%num = Fin (inject_Z z / inject_Z HOURS).
Proof. reflexivity. Qed.

Lemma inject_Z_div_le (a b : Z) :
  a <= b -> (inject_Z a / inject_Z HOURS <= inject_Z b / inject_Z HOURS)%Q.
Proof.
  intros Hab. unfold Qdiv. apply Qmult_le_compat_r.
  - now rewrite <- Zle_Qle.
  - apply Qlt_le_weak, Qinv_lt_0_compat, HOURS_Q_pos.
Qed.

(** [Math.round] picks the integer within half a unit, the upper one on a tie. *)
Lemma round_half_up_spec (q : Q) :
  (q - (1 # 2) < inject_Z (Num.round_half_up q) <= q + (1 # 2))%Q.
Proof.
  unfold Num.round_half_up.
  pose proof (Qlt_floor (q + (1 # 2))) as Hlt.
  pose proof (Qfloor_le (q + (1 # 2))) as Hle.
  rewrite inject_Z_plus in Hlt. change (inject_Z 1) with 1%Q in Hlt.
  revert Hlt Hle. generalize (inject_Z (Qfloor (q + (1 # 2)))). intros z Hlt Hle.
  split; lra.
Qed.

Lemma round_half_up_comp (p q : Q) : (p == q)%Q -> Num.round_half_up p = Num.round_half_up q.
Proof. intros H. unfold Num.round_half_up. apply Qfloor_comp. now rewrite H. Qed.

(** A whole number rounds to itself. *)
Lemma round_half_up_integer (z : Z) : Num.round_half_up (inject_Z z) = z.
Proof.
  unfold Num.round_half_up.
  change (Qfloor (inject_Z z + (1 # 2))) with ((z * 2 + 1 * 1) / 2).
  rewrite Z.div_add_l by discriminate. apply Z.add_0_r.
Qed.

(** ** Intervals *)

Lemma overlapMs_nonneg aStart aEnd bStart bEnd : 0 <= overlapMs aStart aEnd bStart bEnd.
Proof. unfold overlapMs. lia. Qed.

Lemma overlapMs_disjoint aStart aEnd bStart bEnd :
  ~ intersects aStart aEnd bStart bEnd -> overlapMs aStart aEnd bStart bEnd = 0.
Proof.
  intros Hno. unfold overlapMs.
  destruct (Z_le_gt_dec (Z.min (getTime aEnd) (getTime bEnd))
                        (Z.max (getTime aStart) (getTime bStart))) as [Hle | Hgt].
  - lia.
  - exfalso. apply Hno. exists (Z.max (getTime aStart) (getTime bStart)). lia.
Qed.

Lemma min_pair (e b1 b2 : Z) :
  Z.min e b1 + Z.min e b2 = Z.min e (Z.max b1 b2) + Z.min e (Z.min b1 b2).
Proof. lia. Qed.

Lemma max_pair (s a1 a2 : Z) :
  Z.max s a1 + Z.max s a2 = Z.max s (Z.min a1 a2) + Z.max s (Z.max a1 a2).
Proof. lia. Qed.

(** Two intervals that share an instant [t] of the window: their overlaps
    with the window add up to those of their hull and of their common part. *)
Lemma overlap_pair (s e a1 b1 a2 b2 t : Z) :
  s <= t <= e -> Z.max a1 a2 <= t <= Z.min b1 b2 ->
  Z.max 0 (Z.min e b1 - Z.max s a1) + Z.max 0 (Z.min e b2 - Z.max s a2) =
  Z.max 0 (Z.min e (Z.max b1 b2) - Z.max s (Z.min a1 a2))
  + Z.max 0 (Z.min e (Z.min b1 b2) - Z.max s (Z.max a1 a2)).
Proof.
  intros Hw Hc.
  assert (Ha : a1 <= t /\ a2 <= t) by lia.
  assert (Hb : t <= b1 /\ t <= b2) by lia.
  clear Hc.
  rewrite (Z.max_r 0 (Z.min e b1 - Z.max s a1)) by lia.
  rewrite (Z.max_r 0 (Z.min e b2 - Z.max s a2)) by lia.
  rewrite (Z.max_r 0 (Z.min e (Z.max b1 b2) - Z.max s (Z.min a1 a2))) by lia.
  rewrite (Z.max_r 0 (Z.min e (Z.min b1 b2) - Z.max s (Z.max a1 a2))) by lia.
  enough (K : forall X1 X2 X3 X4 Y1 Y2 Y3 Y4 : Z,
             X1 + X2 = X3 + X4 -> Y1 + Y2 = Y3 + Y4 ->
             X1 - Y1 + (X2 - Y2) = X3 - Y3 + (X4 - Y4))
    by (apply K; [apply min_pair | apply max_pair]).
  intros; lia.
Qed.

(** C8. [overlapMs] is symmetric in its two intervals and never negative;
    it is zero when the intervals share no instant and when either range
    is reversed. *)
Theorem overlapMs_symmetric_nonneg (aStart aEnd bStart bEnd : Date) :
  overlapMs aStart aEnd bStart bEnd = overlapMs bStart bEnd aStart aEnd
  /\ 0 <= overlapMs aStart aEnd bStart bEnd
  /\ (~ intersects aStart aEnd bStart bEnd -> overlapMs aStart aEnd bStart bEnd = 0)
  /\ (getTime aEnd < getTime aStart -> overlapMs aStart aEnd bStart bEnd = 0)
  /\ (getTime bEnd < getTime bStart -> overlapMs aStart aEnd bStart bEnd = 0).
Proof.
  repeat split.
  - unfold overlapMs. lia.
  - apply overlapMs_nonneg.
  - apply overlapMs_disjoint.
  - unfold overlapMs. lia.
  - unfold overlapMs. lia.
Qed.

(** ** Effective hours *)

Section EffectiveHours.

Variable now : Date.
Variables (ticketId : string) (start end_ : Date).

(** The loop adds to [deducted] exactly the overlaps of the ticket's stops. *)
Lemma deducted_loop (stopClocks : list StopClock.t) (acc : Z) :
  fold_left (fun deducted s =>
               deducted + overlapMs start end_ (StopClock.startAt s) (endAt_or_now now s))
            (filter (fun s => String.eqb (StopClock.ticketId s) ticketId) stopClocks) acc
  = acc + overlap_sum now ticketId start end_ stopClocks.
Proof.
  revert acc. induction stopClocks as [| s rest IH]; intros acc; simpl.
  - lia.
  - unfold stop_overlap.
    destruct (String.eqb (StopClock.ticketId s) ticketId); simpl; rewrite IH; lia.
Qed.

Lemma overlap_sum_nonneg (stopClocks : list StopClock.t) :
  0 <= overlap_sum now ticketId start end_ stopClocks.
Proof.
  induction stopClocks as [| s rest IH]; simpl; [lia |]. unfold stop_overlap.
  pose proof (overlapMs_nonneg start end_ (StopClock.startAt s) (endAt_or_now now s)).
  destruct (String.eqb (StopClock.ticketId s) ticketId); lia.
Qed.

Lemma overlap_sum_disjoint (stopClocks : list StopClock.t) :
  (forall s, In s stopClocks -> StopClock.ticketId s = ticketId ->
             ~ intersects start end_ (StopClock.startAt s) (endAt_or_now now s)) ->
  overlap_sum now ticketId start end_ stopClocks = 0.
Proof.
  induction stopClocks as [| s rest IH]; intros Hno; simpl; [reflexivity |].
  rewrite IH by (intros s' Hin; apply Hno; now right).
  destruct (String.eqb (StopClock.ticketId s) ticketId) eqn:Heq; [| reflexivity].
  apply String.eqb_eq in Heq. unfold stop_overlap.
  rewrite overlapMs_disjoint; [reflexivity |]. apply Hno; [now left | exact Heq].
Qed.

(** the early return *)
Lemma effectiveHours_reversed (stopClocks : list StopClock.t) :
  getTime end_ <= getTime start ->
  effectiveHoursExcludingStops now ticketId start end_ stopClocks = Num.ofZ 0.
Proof.
  intros Hle. unfold effectiveHoursExcludingStops.
  destruct (Z.leb_spec (getTime end_ - getTime start) 0); [reflexivity | lia].
Qed.

(** past the early return *)
Lemma effectiveHours_proper (stopClocks : list StopClock.t) :
  getTime start < getTime end_ ->
  effectiveHoursExcludingStops now ticketId start end_ stopClocks
  = Fin (inject_Z (Z.max 0 (getTime end_ - getTime start - overlap_sum now ticketId start end_ stopClocks))
         / inject_Z HOURS).
Proof.
  intros Hlt. unfold effectiveHoursExcludingStops.
  destruct (Z.leb_spec (getTime end_ - getTime start) 0); [lia |].
  rewrite deducted_loop, div_HOURS. reflexivity.
Qed.

(** In every case the result is the finite number of hours of some
    whole, non-negative number of milliseconds. *)
Lemma effectiveHours_ms (stopClocks : list StopClock.t) :
  exists (ms : Z) (h : Q),
    effectiveHoursExcludingStops now ticketId start end_ stopClocks = Fin h
    /\ (h == inject_Z ms / inject_Z HOURS)%Q
    /\ 0 <= ms
    /\ (getTime end_ <= getTime start -> ms = 0)
    /\ (getTime start <= getTime end_ -> ms <= getTime end_ - getTime start)
    /\ (getTime start <= getTime end_ ->
        overlap_sum now ticketId start end_ stopClocks = 0 -> ms = getTime end_ - getTime start).
Proof.
  destruct (Z_lt_le_dec (getTime start) (getTime end_)) as [Hlt | Hle].
  - exists (Z.max 0 (getTime end_ - getTime start - overlap_sum now ticketId start end_ stopClocks)).
    eexists. pose proof (overlap_sum_nonneg stopClocks).
    split; [now apply effectiveHours_proper |].
    split; [reflexivity |].
    repeat split; lia.
  - exists 0, 0%Q. split; [now apply effectiveHours_reversed |].
    split; [reflexivity |].
    repeat split; lia.
Qed.

End EffectiveHours.

(** The claim of C4 without a proviso on the window fails: a reversed
    window has a negative length, and the result, zero, exceeds it. *)
Lemma effectiveHours_exceeds_reversed_window :
  ~ (forall (now : Date) (ticketId : string) (start end_ : Date)
            (stopClocks : list StopClock.t) (h : Q),
        effectiveHoursExcludingStops now ticketId start end_ stopClocks = Fin h ->
        (h <= window_hours start end_)%Q).
Proof.
  intros H.
  specialize (H (mkDate 0) "T"%string (mkDate 3600000) (mkDate 0) [] 0%Q eq_refl).
  vm_compute in H. apply H. reflexivity.
Qed.

(** C4, amended. The effective duration is a finite, non-negative number
    of hours; it is zero when the window ends at or before its start; for
    a window that does not end before its start it is at most the
    window's length in hours, and equal to it when no stop interval of
    the ticket intersects the window. *)
Theorem effectiveHours_bounds (now : Date) (ticketId : string) (start end_ : Date)
    (stopClocks : list StopClock.t) :
  exists h : Q,
    effectiveHoursExcludingStops now ticketId start end_ stopClocks = Fin h
    /\ (0 <= h)%Q
    /\ (getTime end_ <= getTime start -> (h == 0)%Q)
    /\ (getTime start <= getTime end_ -> (h <= window_hours start end_)%Q)
    /\ (getTime start <= getTime end_ ->
        (forall s, In s stopClocks -> StopClock.ticketId s = ticketId ->
                   ~ intersects start end_ (StopClock.startAt s) (endAt_or_now now s)) ->
        (h == window_hours start end_)%Q).
Proof.
  destruct (effectiveHours_ms now ticketId start end_ stopClocks)
    as (ms & h & Heq & Hh & H0 & Hrev & Hle & Hfull).
  exists h. split; [exact Heq |].
  split; [| split; [| split]]; rewrite Hh.
  - apply Qle_trans with (inject_Z 0 / inject_Z HOURS)%Q;
      [vm_compute; discriminate | now apply inject_Z_div_le].
  - intros H. rewrite (Hrev H). reflexivity.
  - intros H. unfold window_hours. apply inject_Z_div_le. now apply Hle.
  - intros H Hno. unfold window_hours.
    rewrite (Hfull H (overlap_sum_disjoint now ticketId start end_ stopClocks Hno)).
    reflexivity.
Qed.

(** At a two-hour window with one stop of another ticket inside it, the
    result is the window's length. *)
Lemma effectiveHours_bounds_witness :
  exists h : Q,
    effectiveHoursExcludingStops (mkDate 0) "F1" (mkDate 0) (mkDate 7200000)
      [StopClock.mk "s1" "F2" (mkDate 1000) None "waiting"] = Fin h
    /\ (h == 2)%Q.
Proof.
  destruct (effectiveHours_bounds (mkDate 0) "F1" (mkDate 0) (mkDate 7200000)
              [StopClock.mk "s1" "F2" (mkDate 1000) None "waiting"])
    as (h & Heq & _ & _ & _ & Hfull).
  exists h. split; [exact Heq |].
  rewrite Hfull.
  - reflexivity.
  - simpl. lia.
  - intros s [<- | []]. simpl. discriminate.
Defined.



(** ** The 72-hour closure count *)

Lemma within72_cons (now : Date) (stopClocks : list StopClock.t) (t : Ticket.t)
    (rest : list Ticket.t) :
  within72 now (t :: rest) stopClocks
  = ((if is_fairness t && closed_within72 now stopClocks t then 1 else 0)
     + within72 now rest stopClocks)%nat.
Proof.
  unfold within72, fairness, is_fairness. simpl.
  destruct (TicketType_eqb (Ticket.type t) FAIRNESS); simpl; [| reflexivity].
  destruct (closed_within72 now stopClocks t); reflexivity.
Qed.

Lemma within72_app (now : Date) (stopClocks : list StopClock.t) (l1 l2 : list Ticket.t) :
  within72 now (l1 ++ l2) stopClocks
  = (within72 now l1 stopClocks + within72 now l2 stopClocks)%nat.
Proof.
  induction l1 as [| t rest IH]; [reflexivity |].
  rewrite <- app_comm_cons, !within72_cons, IH. lia.
Qed.

(** C10. A Fairness ticket closed at or before its creation has effective
    duration zero whatever its stop intervals are, passes the 72-hour
    test, and adds one to the numerator of [close72Rate]. *)
Theorem reversed_fairness_ticket_counts (now : Date) (t : Ticket.t) (closedAt : Date)
    (stopClocks : list StopClock.t) :
  Ticket.type t = FAIRNESS ->
  Ticket.closedAt t = Some closedAt ->
  getTime closedAt <= getTime (Ticket.createdAt t) ->
  effectiveHoursExcludingStops now (Ticket.id t) (Ticket.createdAt t) closedAt stopClocks
  = Num.ofZ 0
  /\ closed_within72 now stopClocks t = true
  /\ forall before after : list Ticket.t,
       within72 now (before ++ t :: after) stopClocks
       = S (within72 now (before ++ after) stopClocks).
Proof.
  intros Htype Hclosed Hle.
  assert (Heff := effectiveHours_reversed now (Ticket.id t) _ _ stopClocks Hle).
  assert (Hin : closed_within72 now stopClocks t = true).
  { unfold closed_within72. rewrite Hclosed, Heff. reflexivity. }
  split; [exact Heff | split; [exact Hin |]].
  intros before after.
  rewrite !within72_app, within72_cons. unfold is_fairness.
  rewrite Htype, Hin. simpl. lia.
Qed.

(** A Fairness ticket closed an hour before it was created, with a stop
    interval that is still open. *)
Lemma reversed_fairness_ticket_counts_witness :
  within72 (mkDate 0)
    [Ticket.mk "F9" FAIRNESS CLOSED "appeal" None (mkDate HOURS) (Some (mkDate 0))]
    [StopClock.mk "s" "F9" (mkDate 10) None "paused"]
  = 1%nat.
Proof.
  exact (proj2 (proj2 (reversed_fairness_ticket_counts (mkDate 0)
           (Ticket.mk "F9" FAIRNESS CLOSED "appeal" None (mkDate HOURS) (Some (mkDate 0)))
           (mkDate 0) [StopClock.mk "s" "F9" (mkDate 10) None "paused"]
           eq_refl eq_refl ltac:(vm_compute; discriminate))) [] []).
Defined.

(** ** The average *)

Lemma filter_isFinite (nums : list number) :
  filter Num.isFinite nums = map Fin (finite_values nums).
Proof.
  induction nums as [| x rest IH]; [reflexivity |].
  destruct x; simpl; now rewrite IH.
Qed.

Lemma reduce_add (qs : list Q) (acc : Q) :
  fold_left Num.add (map Fin qs) (Fin acc) = Fin (fold_left Qplus qs acc).
Proof.
  revert acc. induction qs as [| q rest IH]; intros acc; [reflexivity |].
  simpl. apply IH.
Qed.

Lemma fold_left_Qplus (qs : list Q) (acc : Q) :
  (fold_left Qplus qs acc == acc + Qsum qs)%Q.
Proof.
  revert acc. induction qs as [| q rest IH]; intros acc; simpl.
  - ring.
  - rewrite IH. ring.
Qed.

Lemma inject_nat_nonzero (n : nat) :
  (0 < n)%nat -> Qeq_bool (inject_Z (Z.of_nat n)) 0 = false.
Proof.
  intros Hn. destruct (Qeq_bool (inject_Z (Z.of_nat n)) 0) eqn:E; [| reflexivity].
  apply Qeq_bool_eq in E. unfold Qeq in E. simpl in E. lia.
Qed.

Lemma div_ofNat (p : Q) (n : nat) :
  (0 < n)%nat -> (Fin p / Num.ofNat n)%num = Fin (p / inject_Z (Z.of_nat n)).
Proof.
  intros Hn. unfold Num.div, Num.ofNat, Num.ofZ. now rewrite inject_nat_nonzero.
Qed.

(** [avg], computed: [null] without a finite element, otherwise the sum
    of the finite elements, taken from the left, over their number. *)
Lemma avg_finite_values (nums : list number) :
  avg nums
  = match finite_values nums with
    | [] => None
    | qs => Some (Fin (fold_left Qplus qs 0%Q / inject_Z (Z.of_nat (length qs))))
    end.
Proof.
  unfold avg. rewrite filter_isFinite, length_map.
  destruct (finite_values nums) as [| q qs] eqn:E; [reflexivity |].
  change (0 <? length (q :: qs))%nat with true. cbv iota.
  change (Num.ofZ 0) with (Fin 0). rewrite reduce_add.
  rewrite div_ofNat by (simpl; lia). reflexivity.
Qed.

Lemma avg_mean (nums : list number) :
  finite_values nums <> [] -> avg nums =o= Some (Fin (mean (finite_values nums))).
Proof.
  intros Hne. rewrite avg_finite_values.
  destruct (finite_values nums) as [| q qs]; [congruence |].
  simpl Num.eqv_opt. unfold Num.eqv, mean.
  rewrite fold_left_Qplus, Qplus_0_l. reflexivity.
Qed.

Lemma finite_values_Fin (qs : list Q) : finite_values (map Fin qs) = qs.
Proof. induction qs as [| q rest IH]; simpl; congruence. Qed.

(** ** The report *)

(** [diffHours] never throws: it reads a time only behind its own check. *)
Lemma diffHours_return (a b : option Date) :
  diffHours a b
  = Return match a, b with
           | Some later, Some earlier => Some (Fin (signed_hours earlier later))
           | _, _ => None
           end.
Proof. destruct a, b; reflexivity. Qed.

Lemma ttp_hours_return (reqs : list Requisition.t) :
  mapM (fun r => d <- diffHours (Requisition.offerSignedAt r) (Requisition.firstInterviewAt r) ;;
                 non_null d)
       (filter keyRole_interviewed_signed reqs)
  = Return (map Fin (ttp_durations reqs)).
Proof.
  induction reqs as [| r rest IH]; [reflexivity |].
  unfold keyRole_interviewed_signed in *.
  destruct r as [id ticketId [|] approved [i |] [o |] onboarded]; simpl; try exact IH.
  rewrite IH. reflexivity.
Qed.

Lemma ttf_hours_return (reqs : list Requisition.t) :
  mapM (fun r => d <- diffHours (Requisition.onboardedAt r) (Requisition.approvedAt r) ;;
                 non_null d)
       (filter approved_onboarded reqs)
  = Return (map Fin (ttf_durations reqs)).
Proof.
  induction reqs as [| r rest IH]; [reflexivity |].
  unfold approved_onboarded in *.
  destruct r as [id ticketId keyRole [a |] interviewed signed [o |]]; simpl; try exact IH.
  rewrite IH. reflexivity.
Qed.

Lemma ttp_return (reqs : list Requisition.t) :
  ttp reqs = Return (avg (map Fin (ttp_durations reqs))).
Proof. unfold ttp. now rewrite ttp_hours_return. Qed.

Lemma ttf_return (reqs : list Requisition.t) :
  ttf reqs = Return (avg (map Fin (ttf_durations reqs))).
Proof. unfold ttf. now rewrite ttf_hours_return. Qed.

(** No call of [computeTop8] throws, and its report is this one. *)
Lemma computeTop8_return (now : Date) (ticketList : list Ticket.t)
    (reqs : list Requisition.t) (enps : list ENPSResponse.t) (stopClocks : list StopClock.t) :
  computeTop8 now ticketList reqs enps stopClocks
  = Return (Report.mk (avg (map Fin (ttp_durations reqs)))
                      (avg (map Fin (ttf_durations reqs)))
                      (close72Rate now ticketList stopClocks)
                      (poolMultiple ticketList)
                      (eNPS enps)).
Proof. unfold computeTop8. now rewrite ttp_return, ttf_return. Qed.

(** Between two instants of the demo data the duration is the difference
    of their ages. *)
Lemma signed_hours_hoursAgo (now : Date) (a b : Z) :
  (signed_hours (hoursAgo now a) (hoursAgo now b) == inject_Z (a - b))%Q.
Proof.
  unfold signed_hours, hoursAgo. cbn [getTime].
  replace (getTime now - b * HOURS - (getTime now - a * HOURS)) with ((a - b) * HOURS) by ring.
  rewrite inject_Z_mult. field. discriminate.
Qed.

Lemma ttf_demo_value (now : Date) :
  exists h : Q,
    avg (map Fin (ttf_durations (demoReqs now))) = Some (Fin h) /\ (h == 230)%Q.
Proof.
  eexists. split.
  - rewrite avg_finite_values, finite_values_Fin. reflexivity.
  - cbn [fold_left length demoReqs ttf_durations Requisition.approvedAt Requisition.onboardedAt].
    rewrite !signed_hours_hoursAgo. reflexivity.
Qed.

Lemma ttp_demo_value (now : Date) :
  exists h : Q,
    avg (map Fin (ttp_durations (demoReqs now))) = Some (Fin h) /\ (h == 36)%Q.
Proof.
  eexists. split.
  - rewrite avg_finite_values, finite_values_Fin. reflexivity.
  - cbn [fold_left length demoReqs ttp_durations Requisition.keyRole
           Requisition.firstInterviewAt Requisition.offerSignedAt].
    rewrite !signed_hours_hoursAgo. reflexivity.
Qed.

(** what the two assertions do with a report *)
Lemma assert_ttf_of (r : Report.t) (h : Q) (z : Z) :
  Report.ttf r = Some (Fin h) -> (h == inject_Z z)%Q ->
  assert_ttf r
  = if (Num.Math_abs (Num.ofZ (z * 100) / Num.ofZ 100 - Num.ofZ 180) >? tol)%num
    then Throw "expected value differs" else Return tt.
Proof.
  intros Hr Hh. unfold assert_ttf, approxEqual. rewrite Hr. cbn [nullish].
  change (Math_round (Fin h * Num.ofZ 100)%num)
    with (Num.ofZ (Num.round_half_up (h * inject_Z 100))).
  rewrite (round_half_up_comp _ (inject_Z (z * 100))).
  - rewrite round_half_up_integer. reflexivity.
  - rewrite Hh, inject_Z_mult. reflexivity.
Qed.

(** On the demo data the first assertion of [runTests] passes. *)
Lemma assert_ttp_demo (now clock : Date) (ticketList : list Ticket.t)
    (enps : list ENPSResponse.t) (stopClocks : list StopClock.t) :
  exists r,
    computeTop8 clock ticketList (demoReqs now) enps stopClocks = Return r
    /\ Report.ttp r =o= Some (Num.ofZ 36)
    /\ assert_ttp r = Return tt.
Proof.
  rewrite computeTop8_return. eexists. split; [reflexivity |].
  destruct (ttp_demo_value now) as (h & Hh & H36). cbn [Report.ttp].
  split.
  - rewrite Hh. exact H36.
  - unfold assert_ttp, approxEqual. cbn [Report.ttp]. rewrite Hh. cbn [nullish].
    change (Math_round (Fin h * Num.ofZ 100)%num)
      with (Num.ofZ (Num.round_half_up (h * inject_Z 100))).
    rewrite (round_half_up_comp _ (inject_Z 3600)) by (rewrite H36; reflexivity).
    rewrite round_half_up_integer. reflexivity.
Qed.

(** The mean over the two requisitions that are not key roles is 180. *)
Remark ttf_demo_without_key_roles (now : Date) :
  avg (map Fin (ttf_durations (filter (fun r => negb (Requisition.keyRole r)) (demoReqs now))))
  =o= Some (Num.ofZ 180).
Proof.
  rewrite avg_finite_values, finite_values_Fin.
  cbn [filter demoReqs negb Requisition.keyRole fold_left length ttf_durations
         Requisition.approvedAt Requisition.onboardedAt].
  cbn [Num.eqv_opt Num.eqv Num.ofZ]. rewrite !signed_hours_hoursAgo. reflexivity.
Qed.

(** C1. For the four demo requisitions RQ1 to RQ4 the report's [ttf] is
    the mean of 200, 360, 240 and 120 hours, that is 230 hours and not the
    180 hours the claim states; the assertion of [runTests] that expects
    180 throws on this report. *)
Theorem ttf_of_demo_requisitions (now clock : Date) (ticketList : list Ticket.t)
    (enps : list ENPSResponse.t) (stopClocks : list StopClock.t) :
  exists r,
    computeTop8 clock ticketList (demoReqs now) enps stopClocks = Return r
    /\ Report.ttf r =o= Some (Num.ofZ 230)
    /\ ~ Report.ttf r =o= Some (Num.ofZ 180)
    /\ assert_ttf r = Throw "expected value differs".
Proof.
  rewrite computeTop8_return. eexists. split; [reflexivity |].
  destruct (ttf_demo_value now) as (h & Hh & H230). cbn [Report.ttf].
  split; [| split].
  - rewrite Hh. exact H230.
  - rewrite Hh. cbn [Num.eqv_opt Num.eqv Num.ofZ]. rewrite H230. discriminate.
  - rewrite (assert_ttf_of _ h 230); [reflexivity | exact Hh | exact H230].
Qed.


(** ** Rates *)

Lemma length_filter_count_if {A} (p : A -> bool) (l : list A) :
  length (filter p l) = count_if p l.
Proof.
  induction l as [| x rest IH]; [reflexivity |].
  simpl. destruct (p x); simpl; congruence.
Qed.

Lemma count_if_filter {A} (p q : A -> bool) (l : list A) :
  count_if q (filter p l) = count_if (fun x => p x && q x) l.
Proof.
  induction l as [| x rest IH]; [reflexivity |].
  simpl. destruct (p x); simpl; [destruct (q x) |]; congruence.
Qed.

Lemma fairness_length (ticketList : list Ticket.t) :
  length (fairness ticketList) = count_if is_fairness ticketList.
Proof. apply length_filter_count_if. Qed.

Lemma within72_count (now : Date) (ticketList : list Ticket.t) (stopClocks : list StopClock.t) :
  within72 now ticketList stopClocks
  = count_if (fairness_closed_in_72h now stopClocks) ticketList.
Proof.
  unfold within72, fairness. rewrite length_filter_count_if, count_if_filter. reflexivity.
Qed.

(** the rate of [k] out of [n > 0], as the code computes it *)
Lemma rounded_share (k n : nat) :
  (0 < n)%nat ->
  Math_round ((Num.ofNat k / Num.ofNat n) * Num.ofZ 100)%num
  = Num.ofZ (Num.round_half_up (100 * inject_Z (Z.of_nat k) / inject_Z (Z.of_nat n))).
Proof.
  intros Hn. unfold Num.ofNat at 1. unfold Num.ofZ at 1. rewrite div_ofNat by exact Hn.
  cbn [Num.mul Num.ofZ Math_round]. f_equal. apply round_half_up_comp.
  change (inject_Z 100) with 100%Q. field.
  intros H. unfold Qeq in H. cbn in H. lia.
Qed.

(** ** The ledger *)

Lemma find_app {A} (p : A -> bool) (l1 l2 : list A) :
  find p (l1 ++ l2) = match find p l1 with Some x => Some x | None => find p l2 end.
Proof.
  induction l1 as [| x rest IH]; [reflexivity |].
  simpl. destruct (p x); [reflexivity | exact IH].
Qed.

Lemma find_all_false {A} (p : A -> bool) (l : list A) :
  (forall x, In x l -> p x = false) -> find p l = None.
Proof.
  induction l as [| x rest IH]; intros H; [reflexivity |].
  simpl. rewrite (H x) by now left. apply IH. intros y Hy. apply H. now right.
Qed.

(** A search from the back finds the last element that passes the test. *)
Lemma find_rev_latest {A} (p : A -> bool) (before after : list A) (x : A) :
  p x = true -> (forall y, In y after -> p y = false) ->
  find p (rev (before ++ x :: after)) = Some x.
Proof.
  intros Hx Hafter.
  rewrite rev_app_distr. simpl rev. rewrite <- app_assoc, find_app.
  rewrite find_all_false by (intros y Hy; apply Hafter; now apply in_rev).
  simpl. now rewrite Hx.
Qed.

Lemma find_split {A} (p : A -> bool) (l : list A) (x : A) :
  find p l = Some x ->
  exists before after,
    l = before ++ x :: after /\ p x = true /\ (forall y, In y before -> p y = false).
Proof.
  induction l as [| a rest IH]; [discriminate |].
  simpl. destruct (p a) eqn:Ha.
  - intros [= <-]. exists [], rest. repeat split; [exact Ha | intros y []].
  - intros Hfind. destruct (IH Hfind) as (before & after & -> & Hx & Hbefore).
    exists (a :: before), after. repeat split; [exact Hx |].
    intros y [<- | Hy]; [exact Ha | now apply Hbefore].
Qed.

(** What a search from the back finds is the last element that passes. *)
Lemma find_rev_split {A} (p : A -> bool) (l : list A) (x : A) :
  find p (rev l) = Some x ->
  exists before after,
    l = before ++ x :: after /\ p x = true /\ (forall y, In y after -> p y = false).
Proof.
  intros Hfind. destruct (find_split p (rev l) x Hfind) as (pre & post & Hrev & Hx & Hpre).
  exists (rev post), (rev pre). repeat split; [| exact Hx |].
  - rewrite <- (rev_involutive l), Hrev, rev_app_distr. simpl. now rewrite <- app_assoc.
  - intros y Hy. apply Hpre. now apply in_rev.
Qed.

Module LedgerFacts.
Import stdpp.base stdpp.option stdpp.list stdpp.fin_maps stdpp.gmap stdpp.strings.
Import Ledger.

Lemma open_for_spec (id : string) (st : Store) (l : ref) :
  open_for id (objects st) l = true <-> open_interval id st l.
Proof.
  unfold open_for, open_interval. split.
  - destruct (objects st !! l) as [s |] eqn:Hl; [| discriminate].
    intros H. apply andb_prop in H as [Hid Hend]. apply String.eqb_eq in Hid.
    exists s. repeat split; [exact Hid |].
    destruct (StopClock.endAt s); [discriminate | reflexivity].
  - intros (s & -> & <- & Hend). rewrite Hend, String.eqb_refl. reflexivity.
Qed.

Lemma open_for_false (id : string) (st : Store) (l : ref) :
  ~ open_interval id st l -> open_for id (objects st) l = false.
Proof.
  intros H. destruct (open_for id (objects st) l) eqn:E; [| reflexivity].
  exfalso. apply H. now apply open_for_spec.
Qed.

Lemma alter_set_endAt (now : Date) (h : gmap ref StopClock.t) (l : ref) (s : StopClock.t) :
  h !! l = Some s -> alter (set_endAt now) l h = <[l := set_endAt now s]> h.
Proof.
  intros Hl. apply map_eq. intros l'.
  destruct (decide (l = l')) as [<- | Hne].
  - rewrite lookup_alter_eq, lookup_insert_eq, Hl. reflexivity.
  - rewrite lookup_alter_ne, lookup_insert_ne by exact Hne. reflexivity.
Qed.

(** C7. For a logged-in caller, [resume] answers [ok] and leaves the
    array of intervals as it is. If the ticket has an open interval, the
    one added last among them (the last in insertion order, whatever the
    [startAt] values are) gets [endAt = now], keeps its other fields,
    and no other object changes; if it has none, the store is unchanged.
    One of the two is always the case. *)
Theorem resume_closes_latest_open (sess : Session) (id : string) (now : Date) (st : Store) :
  snd (route_resume (Some sess) id now st) = mkResponse 200 ok_true
  /\ stopClocks (fst (route_resume (Some sess) id now st)) = stopClocks st
  /\ (forall (before after : list ref) (l : ref) (s : StopClock.t),
        stopClocks st = before ++ l :: after ->
        objects st !! l = Some s ->
        StopClock.ticketId s = id ->
        StopClock.endAt s = None ->
        (forall l', In l' after -> ~ open_interval id st l') ->
        objects (fst (route_resume (Some sess) id now st))
        = <[l := StopClock.mk (StopClock.id s) (StopClock.ticketId s) (StopClock.startAt s)
                              (Some now) (StopClock.reason s)]> (objects st))
  /\ ((forall l, In l (stopClocks st) -> ~ open_interval id st l) ->
      fst (route_resume (Some sess) id now st) = st)
  /\ ((forall l, In l (stopClocks st) -> ~ open_interval id st l)
      \/ exists (before after : list ref) (l : ref),
           stopClocks st = before ++ l :: after
           /\ open_interval id st l
           /\ (forall l', In l' after -> ~ open_interval id st l')).
Proof.
  cbn [route_resume fst snd]. unfold resume. split; [reflexivity |].
  split; [| split; [| split]].
  - destruct (List.find _ _); reflexivity.
  - intros before after l s Harr Hl Hid Hend Hafter.
    rewrite Harr, find_rev_latest.
    + cbn [objects]. now apply alter_set_endAt.
    + apply open_for_spec. exists s. auto.
    + intros l' Hin. apply open_for_false. now apply Hafter.
  - intros Hnone. rewrite find_all_false; [reflexivity |].
    intros l Hin. apply open_for_false. apply Hnone. now apply in_rev.
  - destruct (List.find (open_for id (objects st)) (List.rev (stopClocks st)))
      as [l |] eqn:Hfind.
    + right. destruct (find_rev_split _ _ _ Hfind) as (before & after & Harr & Hl & Hafter).
      exists before, after, l. split; [exact Harr |]. split; [now apply open_for_spec |].
      intros l' Hin Hopen. apply open_for_spec in Hopen.
      rewrite (Hafter l' Hin) in Hopen. discriminate.
    + left. intros l Hin Hopen. apply open_for_spec in Hopen.
      rewrite (find_none _ _ Hfind l) in Hopen; [discriminate | now rewrite <- in_rev].
Qed.

(** A pause followed by a resume of the same ticket closes the interval
    that the pause opened. *)
Lemma resume_after_pause (cuid id reason : string) (paused resumed : Date) (st : Store) :
  resume id resumed (pause cuid id reason paused st)
  = mkStore (<[fresh (dom (objects st)) := StopClock.mk cuid id paused (Some resumed) reason]>
               (objects st))
            (stopClocks st ++ [fresh (dom (objects st))]).
Proof.
  unfold resume, pause. cbn [objects stopClocks].
  rewrite rev_app_distr. cbn [List.rev List.app List.find].
  unfold open_for at 1. rewrite lookup_insert_eq. cbn [StopClock.ticketId StopClock.endAt truthy].
  rewrite String.eqb_refl. cbn [andb negb].
  f_equal. rewrite (alter_set_endAt resumed _ _ _ (lookup_insert_eq _ _ _)).
  apply insert_insert_eq.
Qed.

(** Resuming [two_pauses] closes the interval added last, although it
    started first, and leaves the other open. *)
Lemma resume_closes_latest_open_witness :
  snapshot (fst (route_resume (Some (mkSession "sid" "u1" None 0 10)) "T1" (mkDate 300)
                              two_pauses))
  = [ StopClock.mk "a" "T1" (mkDate 200) None "first";
      StopClock.mk "b" "T1" (mkDate 100) (Some (mkDate 300)) "second" ].
Proof.
  unfold snapshot.
  destruct (resume_closes_latest_open (mkSession "sid" "u1" None 0 10) "T1" (mkDate 300)
                                      two_pauses) as (_ & Harr & Hlatest & _).
  rewrite Harr.
  rewrite (Hlatest [0%nat] [] 1%nat (StopClock.mk "b" "T1" (mkDate 100) None "second")
                   eq_refl eq_refl eq_refl eq_refl (fun l' (H : In l' []) => match H with end)).
  reflexivity.
Defined.

End LedgerFacts.


(** * Further properties of the code *)

(** ** Intervals and effective hours *)

(** X1. The overlap of two intervals that are not reversed is at most the
    length of either; when the second lies inside the first it is the
    length of the second; and widening the first never shrinks it. *)
Theorem overlapMs_bounds (aStart aEnd bStart bEnd : Date) :
  (getTime aStart <= getTime aEnd ->
   overlapMs aStart aEnd bStart bEnd <= getTime aEnd - getTime aStart)
  /\ (getTime bStart <= getTime bEnd ->
      overlapMs aStart aEnd bStart bEnd <= getTime bEnd - getTime bStart)
  /\ (getTime aStart <= getTime bStart -> getTime bStart <= getTime bEnd ->
      getTime bEnd <= getTime aEnd ->
      overlapMs aStart aEnd bStart bEnd = getTime bEnd - getTime bStart)
  /\ (forall aStart' aEnd' : Date,
        getTime aStart' <= getTime aStart -> getTime aEnd <= getTime aEnd' ->
        overlapMs aStart aEnd bStart bEnd <= overlapMs aStart' aEnd' bStart bEnd).
Proof.
  unfold overlapMs. repeat split; intros; lia.
Qed.

(** The window 0 to 10 holds the interval 2 to 6, the overlap is 4. *)
Lemma overlapMs_bounds_witness :
  overlapMs (mkDate 0) (mkDate 10) (mkDate 2) (mkDate 6) = 4.
Proof.
  refine (proj1 (proj2 (proj2 (overlapMs_bounds (mkDate 0) (mkDate 10) (mkDate 2) (mkDate 6))))
            _ _ _); simpl; lia.
Defined.

Lemma overlap_sum_app (now : Date) (id : string) (start end_ : Date)
    (l1 l2 : list StopClock.t) :
  overlap_sum now id start end_ (l1 ++ l2)
  = overlap_sum now id start end_ l1 + overlap_sum now id start end_ l2.
Proof.
  induction l1 as [| s rest IH]; simpl; [reflexivity |]. rewrite IH. lia.
Qed.

Lemma overlap_sum_filter (now : Date) (id : string) (start end_ : Date)
    (l : list StopClock.t) :
  overlap_sum now id start end_
    (filter (fun s => String.eqb (StopClock.ticketId s) id) l)
  = overlap_sum now id start end_ l.
Proof.
  induction l as [| s rest IH]; simpl; [reflexivity |].
  destruct (String.eqb (StopClock.ticketId s) id) eqn:E; simpl; rewrite ?E, IH; reflexivity.
Qed.

Lemma overlap_sum_permutation (now : Date) (id : string) (start end_ : Date)
    (l1 l2 : list StopClock.t) :
  Permutation l1 l2 ->
  overlap_sum now id start end_ l1 = overlap_sum now id start end_ l2.
Proof.
  induction 1; simpl; lia.
Qed.

(** The result depends on the stop intervals through their sum only. *)
Lemma effectiveHours_by_sum (now now' : Date) (id : string) (start end_ : Date)
    (stops stops' : list StopClock.t) :
  overlap_sum now id start end_ stops = overlap_sum now' id start end_ stops' ->
  effectiveHoursExcludingStops now id start end_ stops
  = effectiveHoursExcludingStops now' id start end_ stops'.
Proof.
  intros Hsum. destruct (Z_lt_le_dec (getTime start) (getTime end_)) as [Hlt | Hle].
  - rewrite !effectiveHours_proper by exact Hlt. now rewrite Hsum.
  - now rewrite !effectiveHours_reversed.
Qed.

(** X2. The effective hours of a ticket depend only on the ticket's own
    stop intervals, and not on the order in which the ledger holds them:
    two ledgers whose intervals for the ticket are the same up to order
    give the same result. *)
Theorem effectiveHours_own_stops_any_order (now : Date) (id : string) (start end_ : Date)
    (stops stops' : list StopClock.t) :
  Permutation (filter (fun s => String.eqb (StopClock.ticketId s) id) stops)
              (filter (fun s => String.eqb (StopClock.ticketId s) id) stops') ->
  effectiveHoursExcludingStops now id start end_ stops
  = effectiveHoursExcludingStops now id start end_ stops'.
Proof.
  intros Hperm. apply effectiveHours_by_sum.
  rewrite <- (overlap_sum_filter now id start end_ stops).
  rewrite <- (overlap_sum_filter now id start end_ stops').
  now apply overlap_sum_permutation.
Qed.

(** Two stops of F1 in either order, with a stop of F2 between them or not. *)
Lemma effectiveHours_own_stops_any_order_witness :
  effectiveHoursExcludingStops (mkDate 0) "F1" (mkDate 0) (mkDate (10 * HOURS))
    [ StopClock.mk "a" "F1" (mkDate HOURS) (Some (mkDate (2 * HOURS))) "";
      StopClock.mk "x" "F2" (mkDate 0) None "";
      StopClock.mk "b" "F1" (mkDate (5 * HOURS)) (Some (mkDate (6 * HOURS))) "" ]
  = effectiveHoursExcludingStops (mkDate 0) "F1" (mkDate 0) (mkDate (10 * HOURS))
    [ StopClock.mk "b" "F1" (mkDate (5 * HOURS)) (Some (mkDate (6 * HOURS))) "";
      StopClock.mk "a" "F1" (mkDate HOURS) (Some (mkDate (2 * HOURS))) "" ].
Proof.
  apply effectiveHours_own_stops_any_order. simpl. apply perm_swap.
Defined.

Lemma hours_leb (a b : Z) :
  a <= b -> (Fin (inject_Z a / inject_Z HOURS) <=? Fin (inject_Z b / inject_Z HOURS))%num = true.
Proof.
  intros H. simpl. apply Qle_bool_iff. now apply inject_Z_div_le.
Qed.

Lemma effectiveHours_app_le (now : Date) (id : string) (start end_ : Date)
    (stops more : list StopClock.t) :
  (effectiveHoursExcludingStops now id start end_ (stops ++ more)
   <=? effectiveHoursExcludingStops now id start end_ stops)%num = true.
Proof.
  destruct (Z_lt_le_dec (getTime start) (getTime end_)) as [Hlt | Hle].
  - rewrite !effectiveHours_proper by exact Hlt. apply hours_leb.
    rewrite overlap_sum_app.
    pose proof (overlap_sum_nonneg now id start end_ more). lia.
  - rewrite !effectiveHours_reversed by exact Hle. reflexivity.
Qed.

(** X3. Recording more stop intervals never increases the effective
    hours of any ticket over any window. *)
Theorem effectiveHours_antitone (now : Date) (id : string) (start end_ : Date)
    (stops more : list StopClock.t) :
  (effectiveHoursExcludingStops now id start end_ (stops ++ more)
   <=? effectiveHoursExcludingStops now id start end_ stops)%num = true.
Proof.
  apply effectiveHours_app_le.
Qed.

Lemma overlap_sum_closed (now now' : Date) (id : string) (start end_ : Date)
    (stops : list StopClock.t) :
  (forall s, In s stops -> StopClock.ticketId s = id -> StopClock.endAt s <> None) ->
  overlap_sum now id start end_ stops = overlap_sum now' id start end_ stops.
Proof.
  induction stops as [| s rest IH]; intros Hclosed; simpl; [reflexivity |].
  rewrite IH by (intros s' Hin; apply Hclosed; now right).
  destruct (String.eqb (StopClock.ticketId s) id) eqn:E; [| reflexivity].
  apply String.eqb_eq in E. unfold stop_overlap, endAt_or_now.
  destruct (StopClock.endAt s) eqn:Hend; [reflexivity |].
  exfalso. apply (Hclosed s); [now left | exact E | exact Hend].
Qed.

(** X4. The clock matters only through open intervals: when every stop
    interval of the ticket has an end, the effective hours are the same
    at whatever instant they are computed. *)
Theorem effectiveHours_closed_stops_clock_free (now now' : Date) (id : string)
    (start end_ : Date) (stops : list StopClock.t) :
  (forall s, In s stops -> StopClock.ticketId s = id -> StopClock.endAt s <> None) ->
  effectiveHoursExcludingStops now id start end_ stops
  = effectiveHoursExcludingStops now' id start end_ stops.
Proof.
  intros Hclosed. apply effectiveHours_by_sum. now apply overlap_sum_closed.
Qed.

(** A closed stop of F1 and an open stop of another ticket, read at two
    different instants. *)
Lemma effectiveHours_closed_stops_clock_free_witness :
  effectiveHoursExcludingStops (mkDate 0) "F1" (mkDate 0) (mkDate (10 * HOURS))
    [ StopClock.mk "a" "F1" (mkDate HOURS) (Some (mkDate (2 * HOURS))) "";
      StopClock.mk "x" "F2" (mkDate 0) None "" ]
  = effectiveHoursExcludingStops (mkDate (99 * HOURS)) "F1" (mkDate 0) (mkDate (10 * HOURS))
    [ StopClock.mk "a" "F1" (mkDate HOURS) (Some (mkDate (2 * HOURS))) "";
      StopClock.mk "x" "F2" (mkDate 0) None "" ].
Proof.
  apply effectiveHours_closed_stops_clock_free.
  intros s [<- | [<- | []]]; simpl; discriminate.
Defined.

Lemma overlap_sum_ge_member (now : Date) (id : string) (start end_ : Date)
    (stops : list StopClock.t) (s : StopClock.t) :
  In s stops -> StopClock.ticketId s = id ->
  stop_overlap now start end_ s <= overlap_sum now id start end_ stops.
Proof.
  intros Hin Hid. induction stops as [| s' rest IH]; [contradiction |].
  simpl. pose proof (overlap_sum_nonneg now id start end_ rest) as Hrest.
  destruct Hin as [-> | Hin].
  - apply String.eqb_eq in Hid. rewrite Hid. lia.
  - specialize (IH Hin).
    pose proof (overlapMs_nonneg start end_ (StopClock.startAt s') (endAt_or_now now s')).
    unfold stop_overlap at 2. destruct (String.eqb (StopClock.ticketId s') id); lia.
Qed.

(** X5. A stop interval of the ticket that covers the whole window, be
    it closed or still open at the instant of computation, brings the
    effective hours to zero, whatever the other intervals are. *)
Theorem effectiveHours_covered_window (now : Date) (id : string) (start end_ : Date)
    (stops : list StopClock.t) (s : StopClock.t) :
  In s stops ->
  StopClock.ticketId s = id ->
  getTime (StopClock.startAt s) <= getTime start ->
  getTime end_ <= getTime (endAt_or_now now s) ->
  effectiveHoursExcludingStops now id start end_ stops =n= Num.ofZ 0.
Proof.
  intros Hin Hid Hs He.
  destruct (Z_lt_le_dec (getTime start) (getTime end_)) as [Hlt | Hle].
  - rewrite effectiveHours_proper by exact Hlt.
    pose proof (overlap_sum_ge_member now id start end_ stops s Hin Hid) as Hge.
    assert (Hov : stop_overlap now start end_ s = getTime end_ - getTime start)
      by (unfold stop_overlap, overlapMs; lia).
    rewrite Z.max_l by lia. reflexivity.
  - rewrite effectiveHours_reversed by exact Hle. reflexivity.
Qed.

(** A pause that began before the ticket was created and is still open
    when the hours are computed, after the ticket was closed. *)
Lemma effectiveHours_covered_window_witness :
  effectiveHoursExcludingStops (mkDate (20 * HOURS)) "F1" (mkDate HOURS) (mkDate (10 * HOURS))
    [StopClock.mk "a" "F1" (mkDate 0) None "waiting"]
  =n= Num.ofZ 0.
Proof.
  apply (effectiveHours_covered_window (mkDate (20 * HOURS)) "F1" (mkDate HOURS)
           (mkDate (10 * HOURS)) _ (StopClock.mk "a" "F1" (mkDate 0) None "waiting")).
  - now left.
  - reflexivity.
  - vm_compute. discriminate.
  - vm_compute. discriminate.
Defined.

(** ** Rates *)

Lemma leb_trans (x y z : number) :
  (x <=? y)%num = true -> (y <=? z)%num = true -> (x <=? z)%num = true.
Proof.
  destruct x as [p | | |], y as [q | | |], z as [r | | |]; simpl; try congruence.
  rewrite !Qle_bool_iff. apply Qle_trans.
Qed.

Lemma count_if_le {A} (p q : A -> bool) (l : list A) :
  (forall x, q x = true -> p x = true) -> (count_if q l <= count_if p l)%nat.
Proof.
  intros Himp. induction l as [| x rest IH]; [reflexivity |].
  simpl. destruct (q x) eqn:Hq.
  - rewrite (Himp x Hq). lia.
  - destruct (p x); lia.
Qed.

Lemma count_if_le_length {A} (p : A -> bool) (l : list A) : (count_if p l <= length l)%nat.
Proof. induction l as [| x rest IH]; simpl; [lia |]. destruct (p x); lia. Qed.

Lemma round_half_up_mono (p q : Q) :
  (p <= q)%Q -> Num.round_half_up p <= Num.round_half_up q.
Proof.
  intros H. unfold Num.round_half_up. apply Qfloor_resp_le.
  apply Qplus_le_l. exact H.
Qed.

Lemma inject_Z_pos (t : Z) : 0 < t -> (0 < inject_Z t)%Q.
Proof. intros Ht. change 0%Q with (inject_Z 0). now rewrite <- Zlt_Qlt. Qed.

(** a quotient of whole numbers, bounded by whole numbers *)
Lemma quotient_bounds (a t lo hi : Z) :
  0 < t -> lo * t <= a <= hi * t ->
  (inject_Z lo <= inject_Z a / inject_Z t <= inject_Z hi)%Q.
Proof.
  intros Ht [Hlo Hhi].
  assert (Hpos : (0 < inject_Z t)%Q) by now apply inject_Z_pos.
  split.
  - apply Qle_shift_div_l; [exact Hpos |].
    rewrite <- inject_Z_mult, <- Zle_Qle. exact Hlo.
  - apply Qle_shift_div_r; [exact Hpos |].
    rewrite <- inject_Z_mult, <- Zle_Qle. exact Hhi.
Qed.

Lemma round_quotient_bounds (a t lo hi : Z) :
  0 < t -> lo * t <= a <= hi * t ->
  lo <= Num.round_half_up (inject_Z a / inject_Z t) <= hi.
Proof.
  intros Ht Ha. destruct (quotient_bounds a t lo hi Ht Ha) as [Hlo Hhi].
  split.
  - rewrite <- (round_half_up_integer lo). now apply round_half_up_mono.
  - rewrite <- (round_half_up_integer hi). now apply round_half_up_mono.
Qed.

Lemma rounded_share_Z (k n : nat) :
  (0 < n)%nat ->
  Math_round ((Num.ofNat k / Num.ofNat n) * Num.ofZ 100)%num
  = Num.ofZ (Num.round_half_up (inject_Z (100 * Z.of_nat k) / inject_Z (Z.of_nat n))).
Proof.
  intros Hn. rewrite rounded_share by exact Hn. reflexivity.
Qed.


Lemma closed_within72_more (now : Date) (stops more : list StopClock.t) (t : Ticket.t) :
  closed_within72 now stops t = true -> closed_within72 now (stops ++ more) t = true.
Proof.
  unfold closed_within72. destruct (Ticket.closedAt t) as [c |]; [| discriminate].
  apply leb_trans, effectiveHours_app_le.
Qed.


Lemma promoter_not_detractor (e : ENPSResponse.t) :
  is_promoter e = true -> is_detractor e = false.
Proof.
  unfold is_promoter, is_detractor, Num.geb.
  destruct (ENPSResponse.score e) as [q | | |]; simpl; try congruence.
  rewrite Qle_bool_iff. intros H9.
  destruct (Qle_bool q (inject_Z 6)) eqn:H6; [| reflexivity].
  apply Qle_bool_iff in H6. exfalso.
  assert (H : (inject_Z 9 <= inject_Z 6)%Q) by (eapply Qle_trans; eauto).
  rewrite <- Zle_Qle in H. lia.
Qed.

Lemma div_ofNat_ofNat (k n : nat) :
  (0 < n)%nat ->
  (Num.ofNat k / Num.ofNat n)%num
  = Fin (inject_Z (Z.of_nat k) / inject_Z (Z.of_nat n)).
Proof. intros Hn. exact (div_ofNat (inject_Z (Z.of_nat k)) n Hn). Qed.

Lemma promoters_detractors_le_total (enps : list ENPSResponse.t) :
  (count_if is_promoter enps + count_if is_detractor enps <= length enps)%nat.
Proof.
  induction enps as [| e rest IH]; simpl; [lia |].
  destruct (is_promoter e) eqn:Hp.
  - rewrite (promoter_not_detractor e Hp). lia.
  - destruct (is_detractor e); lia.
Qed.


Lemma count_if_pos {A} (p : A -> bool) (l : list A) :
  (0 < count_if p l)%nat <-> exists x, In x l /\ p x = true.
Proof.
  induction l as [| a rest IH]; simpl.
  - split; [lia | intros (x & [] & _)].
  - destruct (p a) eqn:Ha.
    + split; [intros _; exists a; auto | lia].
    + rewrite IH. split.
      * intros (x & Hin & Hx). exists x. auto.
      * intros (x & [<- | Hin] & Hx); [congruence | exists x; auto].
Qed.

Lemma open_hiring_spec (t : Ticket.t) :
  TicketType_eqb (Ticket.type t) HIRING
  && (TicketStatus_eqb (Ticket.status t) OPEN
      || TicketStatus_eqb (Ticket.status t) IN_PROGRESS) = true
  <-> Ticket.type t = HIRING
      /\ (Ticket.status t = OPEN \/ Ticket.status t = IN_PROGRESS).
Proof.
  destruct (Ticket.type t), (Ticket.status t); simpl; split;
    try discriminate; try tauto;
    intros [Ht [Hs | Hs]]; discriminate.
Qed.

(** X9. [poolMultiple] is 3 exactly when some Hiring ticket is open or in
    progress, and [null] exactly when none is; it takes no other value. *)
Theorem poolMultiple_iff (ticketList : list Ticket.t) :
  (poolMultiple ticketList = Some (Num.ofZ 3)
   <-> exists t, In t ticketList /\ Ticket.type t = HIRING
                 /\ (Ticket.status t = OPEN \/ Ticket.status t = IN_PROGRESS))
  /\ (poolMultiple ticketList = None
      <-> forall t, In t ticketList -> Ticket.type t = HIRING ->
                    Ticket.status t <> OPEN /\ Ticket.status t <> IN_PROGRESS).
Proof.
  unfold poolMultiple, openReqs. rewrite length_filter_count_if.
  match goal with |- context [count_if ?p _] => set (open_hiring := p) end.
  assert (Hex : (0 < count_if open_hiring ticketList)%nat
                <-> exists t, In t ticketList /\ Ticket.type t = HIRING
                              /\ (Ticket.status t = OPEN \/ Ticket.status t = IN_PROGRESS)).
  { rewrite count_if_pos. split; intros (t & Hin & Ht); exists t; (split; [exact Hin |]).
    - now apply open_hiring_spec.
    - now apply open_hiring_spec in Ht. }
  destruct (Nat.ltb_spec 0 (count_if open_hiring ticketList)) as [Hpos | Hzero].
  - split; split; try discriminate; try reflexivity.
    + intros _. now apply Hex.
    + intros Hnone. apply Hex in Hpos as (t & Hin & Ht & Hs).
      destruct (Hnone t Hin Ht) as [Ho Hp]. destruct Hs; contradiction.
  - split; split; try discriminate; try reflexivity.
    + intros H. apply Hex in H. lia.
    + intros _ t Hin Ht.
      split; intros Hs; assert (0 < count_if open_hiring ticketList)%nat
        by (apply Hex; exists t; auto); lia.
Qed.

(** ** Averages *)

Lemma ttf_durations_nonneg (reqs : list Requisition.t) :
  (forall r a o, In r reqs -> Requisition.approvedAt r = Some a ->
                 Requisition.onboardedAt r = Some o -> getTime a <= getTime o) ->
  forall q, In q (ttf_durations reqs) -> (0 <= q)%Q.
Proof.
  induction reqs as [| r rest IH]; intros Hord q Hq; [contradiction |].
  assert (Hrest := IH (fun r' a o Hin => Hord r' a o (or_intror Hin))).
  cbn [ttf_durations] in Hq.
  destruct (Requisition.approvedAt r) as [a |] eqn:Ha; [| now apply Hrest].
  destruct (Requisition.onboardedAt r) as [o |] eqn:Ho; [| now apply Hrest].
  destruct Hq as [<- | Hq]; [| now apply Hrest].
  unfold signed_hours. apply Qle_shift_div_l; [apply HOURS_Q_pos |].
  rewrite Qmult_0_l. change 0%Q with (inject_Z 0). rewrite <- Zle_Qle.
  specialize (Hord r a o (or_introl eq_refl) Ha Ho). lia.
Qed.

Lemma ttp_durations_nonneg (reqs : list Requisition.t) :
  (forall r i o, In r reqs -> Requisition.firstInterviewAt r = Some i ->
                 Requisition.offerSignedAt r = Some o -> getTime i <= getTime o) ->
  forall q, In q (ttp_durations reqs) -> (0 <= q)%Q.
Proof.
  induction reqs as [| r rest IH]; intros Hord q Hq; [contradiction |].
  assert (Hrest := IH (fun r' a o Hin => Hord r' a o (or_intror Hin))).
  cbn [ttp_durations] in Hq.
  destruct (Requisition.keyRole r); [| now apply Hrest].
  destruct (Requisition.firstInterviewAt r) as [i |] eqn:Hi; [| now apply Hrest].
  destruct (Requisition.offerSignedAt r) as [o |] eqn:Ho; [| now apply Hrest].
  destruct Hq as [<- | Hq]; [| now apply Hrest].
  unfold signed_hours. apply Qle_shift_div_l; [apply HOURS_Q_pos |].
  rewrite Qmult_0_l. change 0%Q with (inject_Z 0). rewrite <- Zle_Qle.
  specialize (Hord r i o (or_introl eq_refl) Hi Ho). lia.
Qed.

Lemma Qsum_nonneg (qs : list Q) :
  (forall q, In q qs -> (0 <= q)%Q) -> (0 <= Qsum qs)%Q.
Proof.
  induction qs as [| q rest IH]; intros Hall; [apply Qle_refl |].
  cbn [Qsum fold_right]. fold (Qsum rest).
  assert (0 <= q)%Q by (apply Hall; now left).
  assert (0 <= Qsum rest)%Q by (apply IH; intros x Hx; apply Hall; now right).
  lra.
Qed.

Lemma avg_nonneg (qs : list Q) :
  (forall q, In q qs -> (0 <= q)%Q) ->
  avg (map Fin qs) = None \/ exists h, avg (map Fin qs) = Some (Fin h) /\ (0 <= h)%Q.
Proof.
  intros Hall. destruct qs as [| q rest]; [now left | right].
  pose proof (avg_mean (map Fin (q :: rest))) as Hmean.
  rewrite finite_values_Fin in Hmean. specialize (Hmean ltac:(discriminate)).
  destruct (avg (map Fin (q :: rest))) as [[h | | |] |]; try contradiction.
  exists h. split; [reflexivity |]. cbn in Hmean. rewrite Hmean.
  unfold mean. apply Qle_shift_div_l.
  - apply inject_Z_pos. simpl. lia.
  - rewrite Qmult_0_l. now apply Qsum_nonneg.
Qed.



(** X12. A requisition that lacks a milestone is left out of the average
    and not counted as zero: without an approval or an onboarding it does
    not change [ttf], and when it is not a key role or lacks the first
    interview or the signed offer it does not change [ttp]. *)
Theorem incomplete_requisition_left_out (before after : list Requisition.t)
    (r : Requisition.t) :
  (approved_onboarded r = false ->
   ttf (before ++ r :: after) = ttf (before ++ after))
  /\ (keyRole_interviewed_signed r = false ->
      ttp (before ++ r :: after) = ttp (before ++ after)).
Proof.
  split; intros H.
  - unfold ttf. rewrite !filter_app. cbn [filter]. now rewrite H.
  - unfold ttp. rewrite !filter_app. cbn [filter]. now rewrite H.
Qed.

(** A requisition that is approved but not onboarded, between two
    complete ones. *)
Lemma incomplete_requisition_left_out_witness :
  ttf [ Requisition.mk "A" "T" false (Some (mkDate 0)) None None (Some (mkDate HOURS));
        Requisition.mk "B" "T" false (Some (mkDate 0)) None None None;
        Requisition.mk "C" "T" false (Some (mkDate 0)) None None (Some (mkDate (3 * HOURS))) ]
  = ttf [ Requisition.mk "A" "T" false (Some (mkDate 0)) None None (Some (mkDate HOURS));
          Requisition.mk "C" "T" false (Some (mkDate 0)) None None (Some (mkDate (3 * HOURS))) ].
Proof.
  exact (proj1 (incomplete_requisition_left_out
                  [Requisition.mk "A" "T" false (Some (mkDate 0)) None None (Some (mkDate HOURS))]
                  [Requisition.mk "C" "T" false (Some (mkDate 0)) None None
                                  (Some (mkDate (3 * HOURS)))]
                  (Requisition.mk "B" "T" false (Some (mkDate 0)) None None None))
               eq_refl).
Defined.

(** ** The assertion helper *)

(** X13. [approxEqual] throws on [null]; for finite numbers it returns
    exactly when the two differ by at most the tolerance; and it returns
    when the value is [NaN], whatever was expected. *)
Theorem approxEqual_accepts (a b tolerance : Q) (expected bound : number) :
  approxEqual None expected bound = Throw "expected a number, got null"
  /\ (approxEqual (Some (Fin a)) (Fin b) (Fin tolerance) = Return tt
      <-> (Qabs (a - b) <= tolerance)%Q)
  /\ approxEqual (Some NaN) expected bound = Return tt.
Proof.
  split; [reflexivity |]. split.
  - unfold approxEqual. cbn [Num.sub Num.neg Num.add Num.Math_abs Num.gtb Num.ltb].
    fold (Qminus a b).
    destruct (Qle_bool (Qabs (a - b)) tolerance) eqn:E; cbn [negb].
    + apply Qle_bool_iff in E. split; auto.
    + split; [discriminate |]. intros H. apply Qle_bool_iff in H. congruence.
  - unfold approxEqual. destruct expected, bound; reflexivity.
Qed.

(** ** The eNPS route *)

Lemma clamp_score_by_range (x : number) :
  match x with
  | Fin q =>
      ((q < 0)%Q -> clamp_score x = Num.ofZ 0)
      /\ ((0 <= q <= 10)%Q -> clamp_score x =n= x)
      /\ ((10 < q)%Q -> clamp_score x = Num.ofZ 10)
  | NaN => clamp_score x = NaN
  | Infinity => clamp_score x = Num.ofZ 10
  | NegInfinity => clamp_score x = Num.ofZ 0
  end.
Proof.
  destruct x as [q | | |]; try reflexivity.
  unfold clamp_score, Math_min, Math_max, Num.ofZ. cbn [Num.leb].
  destruct (Qle_bool (inject_Z 10) q) eqn:H10; cbn [Num.leb].
  - apply Qle_bool_iff in H10. change (inject_Z 10) with 10%Q in H10.
    change (Qle_bool (inject_Z 0) (inject_Z 10)) with true. cbv iota.
    split; [| split].
    + intros H. exfalso. lra.
    + intros [_ H]. cbn. change (inject_Z 10) with 10%Q. lra.
    + reflexivity.
  - assert (Hlt : (q < 10)%Q).
    { apply Qnot_le_lt. intros H. apply Qle_bool_iff in H.
      change 10%Q with (inject_Z 10) in H. congruence. }
    destruct (Qle_bool (inject_Z 0) q) eqn:H0.
    + apply Qle_bool_iff in H0. change (inject_Z 0) with 0%Q in H0.
      split; [| split].
      * intros H. exfalso. lra.
      * intros _. cbn. reflexivity.
      * intros H. exfalso. lra.
    + assert (Hneg : (q < 0)%Q).
      { apply Qnot_le_lt. intros H. apply Qle_bool_iff in H.
        change 0%Q with (inject_Z 0) in H. congruence. }
      split; [| split].
      * reflexivity.
      * intros [H _]. exfalso. lra.
      * intros H. exfalso. lra.
Qed.

(** X14. The score that [POST /api/enps] stores is the posted number
    clamped to the range 0 to 10: a number in the range is kept, a lower
    one (also [-Infinity]) becomes 0, a higher one (also [Infinity])
    becomes 10; [NaN] is not clamped and is stored as [NaN]. *)
Theorem clamp_score_cases (x : number) :
  match x with
  | Fin q =>
      ((q < 0)%Q -> clamp_score x = Num.ofZ 0)
      /\ ((0 <= q <= 10)%Q -> clamp_score x =n= x)
      /\ ((10 < q)%Q -> clamp_score x = Num.ofZ 10)
  | NaN => clamp_score x = NaN
  | Infinity => clamp_score x = Num.ofZ 10
  | NegInfinity => clamp_score x = Num.ofZ 0
  end.
Proof.
  apply clamp_score_by_range.
Qed.

Lemma clamp_score_storable (x : number) : storable_score (clamp_score x).
Proof.
  pose proof (clamp_score_by_range x) as H.
  destruct x as [q | | |]; try (rewrite H; cbn; try exact I; split; discriminate).
  destruct H as (Hlow & Hmid & Hhigh).
  destruct (Qlt_le_dec q 0) as [Hneg | Hpos].
  - rewrite (Hlow Hneg). cbn. split; discriminate.
  - destruct (Qlt_le_dec 10 q) as [Hbig | Hsmall].
    + rewrite (Hhigh Hbig). cbn. split; discriminate.
    + specialize (Hmid (conj Hpos Hsmall)).
      destruct (clamp_score (Fin q)) as [c | | |]; try contradiction.
      cbn in Hmid |- *. rewrite Hmid. auto.
Qed.

(** X15. [POST /api/enps] keeps the stored scores within 0 to 10 or
    [NaN]: if every stored score is so, it is so after any request. A
    request without a session stores nothing; one with a session appends
    exactly one response and leaves the earlier ones as they were. *)
Theorem route_enps_keeps_scores_storable (sess : option Ledger.Session) (score : number)
    (comment : option string) (enps : list ENPSResponse.t) :
  (Forall (fun e => storable_score (ENPSResponse.score e)) enps ->
   Forall (fun e => storable_score (ENPSResponse.score e))
          (fst (route_enps sess score comment enps)))
  /\ (sess = None -> fst (route_enps sess score comment enps) = enps)
  /\ (sess <> None ->
      exists e, fst (route_enps sess score comment enps) = enps ++ [e]
                /\ ENPSResponse.score e = clamp_score score).
Proof.
  destruct sess as [s |]; cbn [route_enps fst].
  - split; [| split].
    + intros Hall. apply Forall_app. split; [exact Hall |].
      constructor; [apply clamp_score_storable | constructor].
    + discriminate.
    + intros _. eexists. split; reflexivity.
  - split; [auto | split; [reflexivity | congruence]].
Qed.

(** A logged-in request posting 42 after a stored 7: the list stays
    storable. *)
Lemma route_enps_keeps_scores_storable_witness :
  Forall (fun e => storable_score (ENPSResponse.score e))
         (fst (route_enps (Some (Ledger.mkSession "s" "u" None 0 1)) (Num.ofZ 42) None
                          [ENPSResponse.mk (Num.ofZ 7) None])).
Proof.
  apply (proj1 (route_enps_keeps_scores_storable
                  (Some (Ledger.mkSession "s" "u" None 0 1)) (Num.ofZ 42) None
                  [ENPSResponse.mk (Num.ofZ 7) None])).
  constructor; [cbn; split; discriminate | constructor].
Defined.

(** ** Sessions *)

Module SessionFacts.
Import Ledger Sessions.

Lemma truthy_string_spec (sid : option string) :
  truthy_string sid = true <-> exists v, sid = Some v /\ v <> ""%string.
Proof.
  destruct sid as [v |]; simpl.
  - destruct (String.eqb_spec v ""); simpl; split.
    + discriminate.
    + intros (w & [= <-] & Hw). contradiction.
    + intros _. exists v. auto.
    + reflexivity.
  - split; [discriminate | intros (v & H & _); discriminate].
Qed.

(** X16. [getSession] returns only a session of the store that carries
    the cookie's identifier, the identifier being non-empty, and that has
    not expired; without a cookie, with an empty one, or with an
    identifier that no stored session carries, it returns [null]. *)
Theorem getSession_sound (sid : option string) (now : Z) (sessions : list Session) :
  (forall s, getSession sid now sessions = Some s ->
             sid = Some (Ledger.sid s) /\ Ledger.sid s <> ""%string
             /\ In s sessions /\ now <= expiresAt s)
  /\ (sid = None \/ sid = Some ""%string
      \/ (forall s, In s sessions -> sid <> Some (Ledger.sid s)) ->
      getSession sid now sessions = None).
Proof.
  unfold getSession. split.
  - intros s. destruct sid as [v |]; [| discriminate].
    destruct (truthy_string (Some v)) eqn:Ht; [| discriminate].
    apply truthy_string_spec in Ht as (w & [= <-] & Hne).
    destruct (find _ sessions) as [x |] eqn:Hfind; [| discriminate].
    apply find_some in Hfind as [Hin Heq]. apply String.eqb_eq in Heq.
    destruct (Z.ltb_spec (expiresAt x) now); [discriminate |].
    intros [= <-]. subst v. auto.
  - intros [-> | [-> | Hnone]]; [reflexivity | reflexivity |].
    destruct sid as [v |]; [| reflexivity].
    destruct (truthy_string (Some v)); [| reflexivity].
    rewrite find_all_false; [reflexivity |].
    intros x Hin. apply String.eqb_neq. intros Heq. apply (Hnone x Hin). now subst v.
Qed.

(** X17. A session made by [createSession] with a non-empty identifier
    that no stored session carries is found by [getSession] until the
    instant [read + 7 days], and no longer after it; the cookie's
    [Max-Age], in seconds, is the same span; and the lookups of all other
    identifiers are as before. *)
Theorem createSession_then_getSession (sid userId : string) (name : option string)
    (created read now : Z) (sessions : list Session) :
  sid <> ""%string ->
  (forall s, In s sessions -> Ledger.sid s <> sid) ->
  getSession (Some sid) now (createSession sid userId name created read sessions)
  = (if read + 7 * 24 * HOURS <? now then None
     else Some (mkSession sid userId name created (read + 7 * 24 * HOURS)))
  /\ cookie_maxAge * 1000 = 7 * 24 * HOURS
  /\ forall other, other <> sid ->
       getSession (Some other) now (createSession sid userId name created read sessions)
       = getSession (Some other) now sessions.
Proof.
  intros Hne Hfresh. unfold getSession, createSession.
  split; [| split; [reflexivity |]].
  - replace (truthy_string (Some sid)) with true
      by (symmetry; apply truthy_string_spec; exists sid; auto).
    rewrite find_app, find_all_false.
    + simpl. rewrite String.eqb_refl. reflexivity.
    + intros x Hin. apply String.eqb_neq. now apply Hfresh.
  - intros other Hother. destruct (truthy_string (Some other)); [| reflexivity].
    rewrite find_app. destruct (find _ sessions); [reflexivity |].
    simpl. apply String.eqb_neq in Hother. rewrite String.eqb_sym in Hother.
    now rewrite Hother.
Qed.

(** A first login, looked up one hour before the session expires. *)
Lemma createSession_then_getSession_witness :
  getSession (Some "ab12"%string) (7 * 24 * HOURS - HOURS)
             (createSession "ab12" "u1" None 0 0 [])
  = Some (mkSession "ab12" "u1" None 0 (7 * 24 * HOURS)).
Proof.
  refine (proj1 (createSession_then_getSession "ab12" "u1" None 0 0
                   (7 * 24 * HOURS - HOURS) [] _ _)).
  - discriminate.
  - intros s [].
Defined.

Lemma find_filter_other {A} (p q : A -> bool) (l : list A) :
  (forall x, p x = true -> q x = true) -> find p (filter q l) = find p l.
Proof.
  intros Himp. induction l as [| x rest IH]; [reflexivity |].
  simpl. destruct (q x) eqn:Hq; simpl.
  - destruct (p x); [reflexivity | exact IH].
  - destruct (p x) eqn:Hp; [| exact IH].
    rewrite (Himp x Hp) in Hq. discriminate.
Qed.

(** X18. After [logout] the cookie's identifier finds no session, at
    whatever instant, and every session with another identifier is found
    as before. *)
Theorem logout_ends_session (sid : option string) (now : Z) (sessions : list Session) :
  getSession sid now (logout sid sessions) = None
  /\ forall v other, sid = Some v -> other <> v ->
       getSession (Some other) now (logout sid sessions)
       = getSession (Some other) now sessions.
Proof.
  split.
  - unfold getSession, logout. destruct sid as [v |]; [| reflexivity].
    destruct (truthy_string (Some v)); [| reflexivity].
    rewrite find_all_false; [reflexivity |].
    intros x Hin. apply filter_In in Hin as [_ Hx].
    now apply negb_true_iff in Hx.
  - intros v other -> Hother. unfold getSession, logout.
    destruct (truthy_string (Some v)); [| reflexivity].
    destruct (truthy_string (Some other)); [| reflexivity].
    rewrite find_filter_other; [reflexivity |].
    intros x Hx. apply String.eqb_eq in Hx. apply negb_true_iff, String.eqb_neq.
    congruence.
Qed.

(** Two sessions; the first logs out, the second is still found. *)
Lemma logout_ends_session_witness :
  getSession (Some "b"%string) 5
             (logout (Some "a"%string)
                     [mkSession "a" "u1" None 0 10; mkSession "b" "u2" None 0 10])
  = Some (mkSession "b" "u2" None 0 10).
Proof.
  rewrite (proj2 (logout_ends_session (Some "a"%string) 5
                    [mkSession "a" "u1" None 0 10; mkSession "b" "u2" None 0 10])
                 "a"%string "b"%string eq_refl ltac:(discriminate)).
  reflexivity.
Defined.

End SessionFacts.

(** ** The ledger as a list of intervals *)

Lemma close_first_open_none (id : string) (now : Date) (l : list StopClock.t) :
  (forall x, In x l -> is_open id x = false) -> close_first_open id now l = l.
Proof.
  induction l as [| s rest IH]; intros Hnone; [reflexivity |].
  simpl. rewrite (Hnone s) by now left.
  rewrite IH; [reflexivity |]. intros x Hx. apply Hnone. now right.
Qed.

Lemma close_first_open_split (id : string) (now : Date)
    (before after : list StopClock.t) (s : StopClock.t) :
  is_open id s = true -> (forall x, In x before -> is_open id x = false) ->
  close_first_open id now (before ++ s :: after)
  = before ++ Ledger.set_endAt now s :: after.
Proof.
  intros Hs. induction before as [| b rest IH]; intros Hbefore; simpl.
  - now rewrite Hs.
  - rewrite (Hbefore b) by now left.
    rewrite IH; [reflexivity |]. intros x Hx. apply Hbefore. now right.
Qed.

Lemma close_last_open_none (id : string) (now : Date) (l : list StopClock.t) :
  (forall x, In x l -> is_open id x = false) -> close_last_open id now l = l.
Proof.
  intros Hnone. unfold close_last_open.
  rewrite close_first_open_none; [apply rev_involutive |].
  intros x Hx. apply Hnone. now apply in_rev.
Qed.

Lemma close_last_open_split (id : string) (now : Date)
    (before after : list StopClock.t) (s : StopClock.t) :
  is_open id s = true -> (forall x, In x after -> is_open id x = false) ->
  close_last_open id now (before ++ s :: after)
  = before ++ Ledger.set_endAt now s :: after.
Proof.
  intros Hs Hafter. unfold close_last_open.
  rewrite rev_app_distr. simpl rev. rewrite <- app_assoc. simpl app.
  rewrite close_first_open_split.
  - rewrite rev_app_distr. simpl rev. rewrite !rev_involutive, <- app_assoc. reflexivity.
  - exact Hs.
  - intros x Hx. apply Hafter. now apply in_rev.
Qed.

Lemma count_if_app {A} (p : A -> bool) (l1 l2 : list A) :
  count_if p (l1 ++ l2) = (count_if p l1 + count_if p l2)%nat.
Proof.
  induction l1 as [| x rest IH]; [reflexivity |].
  simpl. destruct (p x); simpl; lia.
Qed.

Lemma count_if_none {A} (p : A -> bool) (l : list A) :
  (forall x, In x l -> p x = false) -> count_if p l = O.
Proof.
  induction l as [| x rest IH]; intros Hnone; [reflexivity |].
  simpl. rewrite (Hnone x) by now left. apply IH. intros y Hy. apply Hnone. now right.
Qed.

Lemma is_open_set_endAt (id : string) (now : Date) (s : StopClock.t) :
  is_open id (Ledger.set_endAt now s) = false.
Proof. unfold is_open. simpl. apply andb_false_r. Qed.

Lemma is_open_other (id other : string) (s : StopClock.t) :
  other <> id -> is_open id s = true -> is_open other s = false.
Proof.
  unfold is_open. intros Hne H. apply andb_prop in H as [Hid _].
  apply String.eqb_eq in Hid. apply String.eqb_neq in Hne.
  rewrite Hid, String.eqb_sym, Hne. reflexivity.
Qed.

(** The last open interval of a ticket, if the list has one. *)
Lemma last_open_split (id : string) (l : list StopClock.t) :
  (forall x, In x l -> is_open id x = false)
  \/ exists before s after,
       l = before ++ s :: after /\ is_open id s = true
       /\ (forall x, In x after -> is_open id x = false).
Proof.
  destruct (find (is_open id) (rev l)) as [s |] eqn:Hfind.
  - right. destruct (find_rev_split _ _ _ Hfind) as (before & after & Hl & Hs & Hafter).
    exists before, s, after. auto.
  - left. intros x Hx. apply (find_none _ _ Hfind). now rewrite <- in_rev.
Qed.

(** Closing the last open interval of a ticket lowers the number of its
    open intervals by one when there is one; the open intervals of other
    tickets and the length of the list stay the same. *)
Lemma close_last_open_counts (id : string) (now : Date) (l : list StopClock.t) :
  open_count id (close_last_open id now l) = Nat.pred (open_count id l)
  /\ length (close_last_open id now l) = length l
  /\ forall other, other <> id ->
       open_count other (close_last_open id now l) = open_count other l.
Proof.
  unfold open_count.
  destruct (last_open_split id l) as [Hnone | (before & s & after & -> & Hs & Hafter)].
  - rewrite close_last_open_none by exact Hnone.
    rewrite (count_if_none _ _ Hnone). auto.
  - rewrite close_last_open_split by assumption.
    rewrite !count_if_app, !length_app. cbn [count_if length].
    rewrite Hs, is_open_set_endAt. split; [lia | split; [reflexivity |]].
    intros other Hother. rewrite !count_if_app. cbn [count_if].
    rewrite (is_open_other id other s Hother Hs).
    unfold is_open at 2. cbn [Ledger.set_endAt StopClock.ticketId StopClock.endAt truthy negb].
    rewrite andb_false_r. reflexivity.
Qed.

(** ** The ledger of the store *)

Module LedgerStateFacts.
Import stdpp.base stdpp.option stdpp.list stdpp.fin_maps stdpp.gmap stdpp.strings.
Import Ledger LedgerState.

Lemma omap_lookup_ext (h h' : gmap ref StopClock.t) (arr : list ref) :
  (forall l, In l arr -> h' !! l = h !! l) ->
  omap (fun l => h' !! l) arr = omap (fun l => h !! l) arr.
Proof.
  induction arr as [| l rest IH]; intros Hsame; [reflexivity |].
  cbn [omap list_omap]. rewrite (Hsame l) by now left.
  rewrite IH by (intros l' Hin; apply Hsame; now right). reflexivity.
Qed.

Lemma snapshot_In (st : Store) (s : StopClock.t) :
  In s (snapshot st) ->
  exists l, In l (stopClocks st) /\ objects st !! l = Some s.
Proof.
  unfold snapshot. intros Hin. apply list_elem_of_In, list_elem_of_omap in Hin.
  destruct Hin as (l & Hl & Hs). exists l. split; [now apply list_elem_of_In | exact Hs].
Qed.

Lemma open_for_is_open (id : string) (h : gmap ref StopClock.t) (l : ref) (s : StopClock.t) :
  h !! l = Some s -> open_for id h l = is_open id s.
Proof. intros Hl. unfold open_for. now rewrite Hl. Qed.

Lemma resume_changes_only_open (id : string) (now : Date) (st : Store) :
  (forall l s, objects st !! l = Some s ->
               StopClock.ticketId s <> id \/ StopClock.endAt s <> None ->
               objects (resume id now st) !! l = Some s)
  /\ dom (objects (resume id now st)) = dom (objects st)
  /\ stopClocks (resume id now st) = stopClocks st.
Proof.
  unfold resume.
  destruct (List.find (open_for id (objects st)) (List.rev (stopClocks st)))
    as [l0 |] eqn:Hfind; cbn [objects stopClocks].
  - split; [| split; [apply dom_alter_L | reflexivity]].
    intros l s Hl Hkeep. rewrite lookup_alter_ne; [exact Hl |].
    intros <-. apply find_some in Hfind as [_ Hopen].
    rewrite (open_for_is_open id _ _ _ Hl) in Hopen.
    unfold is_open in Hopen. apply andb_prop in Hopen as [Hid Hend].
    apply String.eqb_eq in Hid.
    destruct Hkeep as [Hne | Hclosed]; [contradiction |].
    destruct (StopClock.endAt s); [discriminate | contradiction].
  - auto.
Qed.

(** X19. [resume] changes at most one object, an open interval of the
    given ticket: any two references whose objects differ before and
    after are the same reference; the object behind it was an interval
    of the ticket with no end, listed in [stopClocks], and is the same
    interval with [now] as its end; every interval of another ticket and
    every interval that already has an end is the same object after it,
    and no object is added or removed. *)
Theorem resume_frame (id : string) (now : Date) (st : Store) :
  (forall l l', objects (resume id now st) !! l <> objects st !! l ->
                objects (resume id now st) !! l' <> objects st !! l' ->
                l = l')
  /\ (forall l, objects (resume id now st) !! l <> objects st !! l ->
                In l (stopClocks st)
                /\ exists s, objects st !! l = Some s
                             /\ StopClock.ticketId s = id
                             /\ StopClock.endAt s = None
                             /\ objects (resume id now st) !! l = Some (set_endAt now s))
  /\ (forall l s, objects st !! l = Some s ->
                  StopClock.ticketId s <> id \/ StopClock.endAt s <> None ->
                  objects (resume id now st) !! l = Some s)
  /\ dom (objects (resume id now st)) = dom (objects st)
  /\ stopClocks (resume id now st) = stopClocks st.
Proof.
  split; [| split; [| apply resume_changes_only_open]].
  - unfold resume.
    destruct (List.find (open_for id (objects st)) (List.rev (stopClocks st)))
      as [l0 |]; cbn [objects]; [| congruence].
    intros l l' Hl Hl'.
    destruct (decide (l0 = l)) as [<- | Hne];
      [| now rewrite lookup_alter_ne in Hl by exact Hne].
    destruct (decide (l0 = l')) as [<- | Hne'];
      [reflexivity | now rewrite lookup_alter_ne in Hl' by exact Hne'].
  - unfold resume.
    destruct (List.find (open_for id (objects st)) (List.rev (stopClocks st)))
      as [l0 |] eqn:Hfind; cbn [objects]; [| congruence].
    intros l Hl.
    destruct (decide (l0 = l)) as [<- | Hne];
      [| now rewrite lookup_alter_ne in Hl by exact Hne].
    apply find_some in Hfind as [Hin Hopen]. rewrite <- in_rev in Hin.
    split; [exact Hin |]. unfold open_for in Hopen.
    destruct (objects st !! l0) as [s |] eqn:Hs; [| discriminate].
    apply andb_prop in Hopen as [Hid Hend]. apply String.eqb_eq in Hid.
    exists s. split; [reflexivity |]. split; [exact Hid |]. split.
    + destruct (StopClock.endAt s); [discriminate | reflexivity].
    + rewrite lookup_alter_eq, Hs. reflexivity.
Qed.

Lemma pause_fresh (st : Store) (l : ref) :
  well_formed st -> In l (stopClocks st) -> l <> fresh (dom (objects st)).
Proof.
  intros [_ Halloc] Hin ->. destruct (Halloc _ Hin) as [s Hs].
  apply (is_fresh (dom (objects st))). apply elem_of_dom. now exists s.
Qed.

Lemma well_formed_pause (cuid id reason : string) (now : Date) (st : Store) :
  well_formed st -> well_formed (pause cuid id reason now st).
Proof.
  intros Hwf. pose proof Hwf as [Hnodup Halloc]. unfold well_formed, pause.
  cbn [objects stopClocks]. split.
  - apply NoDup_ListNoDup, NoDup_app. repeat split.
    + now apply NoDup_ListNoDup.
    + intros l Hl Hin. apply list_elem_of_In in Hl. apply list_elem_of_In in Hin.
      destruct Hin as [<- | []]. now apply (pause_fresh st _ Hwf Hl).
    + apply NoDup_ListNoDup. constructor; [intros [] | constructor].
  - intros l Hin. apply in_app_or in Hin as [Hin | [<- | []]].
    + destruct (Halloc l Hin) as [s Hs]. exists s.
      rewrite lookup_insert_ne; [exact Hs |].
      intros Heq. now apply (pause_fresh st l Hwf Hin).
    + eexists. apply lookup_insert_eq.
Qed.

Lemma well_formed_resume (id : string) (now : Date) (st : Store) :
  well_formed st -> well_formed (resume id now st).
Proof.
  intros [Hnodup Halloc]. unfold well_formed.
  destruct (resume_changes_only_open id now st) as (_ & Hdom & ->).
  split; [exact Hnodup |]. intros l Hin.
  destruct (Halloc l Hin) as [s Hs].
  assert (Hd : l ∈ dom (objects (resume id now st)))
    by (rewrite Hdom; apply elem_of_dom; now exists s).
  apply elem_of_dom in Hd as [s' Hs']. now exists s'.
Qed.

(** X20. In the store that the two ledger routes build, every element
    of [stopClocks] is an object of its own: this holds of the empty
    ledger and is kept by [POST .../stop] and [POST .../resume], with or
    without a session. *)
Theorem well_formed_invariant (sess : option Session) (cuid id reason : string)
    (now : Date) (st : Store) :
  well_formed empty
  /\ (well_formed st ->
      well_formed (fst (route_stop sess cuid id reason now st))
      /\ well_formed (fst (route_resume sess id now st))).
Proof.
  split.
  - split; [constructor | intros l []].
  - intros Hwf. destruct sess; cbn [route_stop route_resume fst]; split;
      auto using well_formed_pause, well_formed_resume.
Qed.

Lemma snapshot_pause (cuid id reason : string) (now : Date) (st : Store) :
  well_formed st ->
  snapshot (pause cuid id reason now st)
  = snapshot st ++ [StopClock.mk cuid id now None reason].
Proof.
  intros Hwf. unfold snapshot, pause. cbn [objects stopClocks].
  rewrite omap_app. f_equal.
  - apply omap_lookup_ext. intros l Hin. apply lookup_insert_ne.
    intros Heq. now apply (pause_fresh st l Hwf Hin).
  - cbn [omap list_omap]. rewrite lookup_insert_eq. reflexivity.
Qed.

(** X21. A pause appends one interval to the ledger, of the given
    ticket, starting now and open, and leaves every interval that was
    there as it was. *)
Theorem pause_appends (cuid id reason : string) (now : Date) (st : Store) :
  well_formed st ->
  snapshot (pause cuid id reason now st)
  = snapshot st ++ [StopClock.mk cuid id now None reason].
Proof.
  apply snapshot_pause.
Qed.

Lemma snapshot_resume (id : string) (now : Date) (st : Store) :
  well_formed st ->
  snapshot (resume id now st) = close_last_open id now (snapshot st).
Proof.
  intros [Hnodup Halloc]. unfold resume.
  destruct (List.find (open_for id (objects st)) (List.rev (stopClocks st)))
    as [l0 |] eqn:Hfind.
  - destruct (find_rev_split _ _ _ Hfind) as (before & after & Harr & Hopen & Hafter).
    destruct (Halloc l0) as [s0 Hs0]; [rewrite Harr; apply in_elt |].
    rewrite (open_for_is_open id _ _ _ Hs0) in Hopen.
    rewrite Harr in Hnodup. apply NoDup_remove_2 in Hnodup.
    unfold snapshot. cbn [objects stopClocks]. rewrite Harr, !omap_app.
    cbn [omap list_omap]. rewrite lookup_alter_eq, Hs0. cbn [fmap option_fmap option_map].
    rewrite !(omap_lookup_ext (objects st) (alter (set_endAt now) l0 (objects st))).
    + symmetry. apply close_last_open_split; [exact Hopen |].
      intros x Hx. apply list_elem_of_In, list_elem_of_omap in Hx as (l & Hl & Hx).
      apply list_elem_of_In in Hl.
      rewrite <- (open_for_is_open id _ _ _ Hx). now apply Hafter.
    + intros l Hin. apply lookup_alter_ne. intros <-.
      apply Hnodup, in_or_app. now right.
    + intros l Hin. apply lookup_alter_ne. intros <-.
      apply Hnodup, in_or_app. now left.
  - symmetry. apply close_last_open_none.
    intros x Hx. apply snapshot_In in Hx as (l & Hl & Hx).
    rewrite <- (open_for_is_open id _ _ _ Hx).
    apply (find_none _ _ Hfind). now rewrite <- in_rev.
Qed.

(** X22. On the ledger read as a list of intervals, [resume] closes the
    last open interval of the ticket in the list and changes nothing else;
    when the ticket has no open interval the list is as before. *)
Theorem resume_closes_last_in_snapshot (id : string) (now : Date) (st : Store) :
  well_formed st ->
  snapshot (resume id now st) = close_last_open id now (snapshot st).
Proof.
  apply snapshot_resume.
Qed.

(** X23. A pause raises the number of open intervals of its ticket by
    one and a resume lowers it by one, or leaves it at zero; neither
    changes the number of open intervals of another ticket. A ticket
    paused twice is still paused after one resume. *)
Theorem pause_resume_counts (cuid id reason : string) (now : Date) (st : Store) :
  well_formed st ->
  open_count id (snapshot (pause cuid id reason now st))
  = S (open_count id (snapshot st))
  /\ open_count id (snapshot (resume id now st))
     = Nat.pred (open_count id (snapshot st))
  /\ forall other, other <> id ->
       open_count other (snapshot (pause cuid id reason now st))
       = open_count other (snapshot st)
       /\ open_count other (snapshot (resume id now st))
          = open_count other (snapshot st).
Proof.
  intros Hwf. rewrite snapshot_pause, snapshot_resume by exact Hwf.
  destruct (close_last_open_counts id now (snapshot st)) as (Hown & _ & Hother).
  unfold open_count in *. rewrite count_if_app. cbn [count_if].
  unfold is_open at 2. cbn [StopClock.ticketId StopClock.endAt truthy negb].
  rewrite String.eqb_refl. cbn [andb]. split; [lia | split; [exact Hown |]].
  intros other Hne. split; [| now apply Hother].
  rewrite count_if_app. cbn [count_if].
  unfold is_open at 2. cbn [StopClock.ticketId StopClock.endAt truthy negb].
  apply String.eqb_neq in Hne. rewrite String.eqb_sym in Hne. rewrite Hne. cbn [andb]. lia.
Qed.

Lemma two_pauses_well_formed : well_formed two_pauses.
Proof.
  split.
  - repeat constructor; simpl; intuition discriminate.
  - intros l [<- | [<- | []]]; eexists; reflexivity.
Qed.

(** A third pause of T1 on the ledger with two open intervals. *)
Lemma pause_appends_witness :
  snapshot (pause "c" "T1" "third" (mkDate 300) two_pauses)
  = snapshot two_pauses ++ [StopClock.mk "c" "T1" (mkDate 300) None "third"].
Proof.
  exact (pause_appends "c" "T1" "third" (mkDate 300) two_pauses two_pauses_well_formed).
Defined.

Lemma resume_closes_last_in_snapshot_witness :
  snapshot (resume "T1" (mkDate 300) two_pauses)
  = close_last_open "T1" (mkDate 300) (snapshot two_pauses).
Proof.
  exact (resume_closes_last_in_snapshot "T1" (mkDate 300) two_pauses two_pauses_well_formed).
Defined.

(** T1 is paused twice in [two_pauses]: after one resume it is still
    paused once. *)
Lemma pause_resume_counts_witness :
  open_count "T1" (snapshot (resume "T1" (mkDate 300) two_pauses)) = 1%nat.
Proof.
  rewrite (proj1 (proj2 (pause_resume_counts "c" "T1" "third" (mkDate 300) two_pauses
                           two_pauses_well_formed))).
  reflexivity.
Defined.

End LedgerStateFacts.

(** ** The ledger and the effective hours together *)

Lemma count_if_zero {A} (p : A -> bool) (l : list A) :
  count_if p l = O -> forall x, In x l -> p x = false.
Proof.
  induction l as [| a rest IH]; intros Hzero x Hx; [contradiction |].
  simpl in Hzero. destruct (p a) eqn:Ha; [discriminate |].
  destruct Hx as [<- | Hx]; [exact Ha | now apply IH].
Qed.

Lemma stop_overlap_set_endAt (now start end_ : Date) (s : StopClock.t) :
  StopClock.endAt s = None ->
  stop_overlap now start end_ (Ledger.set_endAt now s) = stop_overlap now start end_ s.
Proof.
  intros Hopen. unfold stop_overlap, endAt_or_now. simpl. now rewrite Hopen.
Qed.

(** Closing an open interval at the instant [now] leaves the sum of
    overlaps, read at [now], as it was. *)
Lemma overlap_sum_close_last_open (now : Date) (id ticketId : string) (start end_ : Date)
    (l : list StopClock.t) :
  overlap_sum now ticketId start end_ (close_last_open id now l)
  = overlap_sum now ticketId start end_ l.
Proof.
  destruct (last_open_split id l) as [Hnone | (before & s & after & -> & Hs & Hafter)].
  - now rewrite close_last_open_none.
  - rewrite close_last_open_split by assumption.
    rewrite !overlap_sum_app. cbn [overlap_sum].
    unfold is_open in Hs. apply andb_prop in Hs as [_ Hend].
    rewrite stop_overlap_set_endAt; [reflexivity |].
    destruct (StopClock.endAt s); [discriminate | reflexivity].
Qed.

Lemma overlap_sum_after_window (clock : Date) (ticketId : string) (start end_ : Date)
    (s : StopClock.t) :
  getTime end_ <= getTime (StopClock.startAt s) ->
  stop_overlap clock start end_ s = 0.
Proof. intros H. unfold stop_overlap, overlapMs. lia. Qed.

Module LedgerHoursFacts.
Import Ledger LedgerState LedgerStateFacts.

(** X24. A resume at the instant [now] does not change any ticket's
    effective hours as computed at [now]: closing the open interval at
    [now] counts as much as leaving it open until [now]. And when the
    resumed ticket had at most one open interval, its effective hours are
    from then on the same at every later instant of computation. *)
Theorem resume_keeps_hours (id ticketId : string) (now start end_ : Date) (st : Store) :
  well_formed st ->
  effectiveHoursExcludingStops now ticketId start end_ (snapshot (resume id now st))
  = effectiveHoursExcludingStops now ticketId start end_ (snapshot st)
  /\ ((open_count id (snapshot st) <= 1)%nat ->
      forall later : Date,
        effectiveHoursExcludingStops later id start end_ (snapshot (resume id now st))
        = effectiveHoursExcludingStops now id start end_ (snapshot st)).
Proof.
  intros Hwf. rewrite snapshot_resume by exact Hwf.
  assert (Hsame : effectiveHoursExcludingStops now ticketId start end_
                    (close_last_open id now (snapshot st))
                  = effectiveHoursExcludingStops now ticketId start end_ (snapshot st))
    by apply effectiveHours_by_sum, overlap_sum_close_last_open.
  split; [exact Hsame |].
  intros Hone later.
  transitivity (effectiveHoursExcludingStops now id start end_
                  (close_last_open id now (snapshot st))).
  - apply effectiveHours_by_sum, overlap_sum_closed.
    destruct (close_last_open_counts id now (snapshot st)) as (Hcount & _ & _).
    assert (Hzero : open_count id (close_last_open id now (snapshot st)) = O) by lia.
    intros s Hin Hid Hend.
    pose proof (count_if_zero _ _ Hzero s Hin) as Hs. unfold is_open in Hs.
    apply String.eqb_eq in Hid. rewrite Hid, Hend in Hs. discriminate.
  - apply effectiveHours_by_sum, overlap_sum_close_last_open.
Qed.

(** T1 is paused once, from hour 1 on; resumed at hour 3, its hours over
    the window of hours 0 to 10 are the same at hour 3 and ever after. *)
Lemma resume_keeps_hours_witness :
  effectiveHoursExcludingStops (mkDate (99 * HOURS)) "T1" (mkDate 0) (mkDate (10 * HOURS))
    (snapshot (resume "T1" (mkDate (3 * HOURS))
                      (pause "a" "T1" "" (mkDate HOURS) empty)))
  = effectiveHoursExcludingStops (mkDate (3 * HOURS)) "T1" (mkDate 0) (mkDate (10 * HOURS))
      (snapshot (pause "a" "T1" "" (mkDate HOURS) empty)).
Proof.
  refine (proj2 (resume_keeps_hours "T1" "T1" (mkDate (3 * HOURS)) (mkDate 0)
                   (mkDate (10 * HOURS)) (pause "a" "T1" "" (mkDate HOURS) empty) _) _
                (mkDate (99 * HOURS))).
  - apply well_formed_pause. split; [constructor | intros l []].
  - vm_compute. repeat constructor.
Defined.

(** X25. A pause that starts at or after the end of a window does not
    change the effective hours over that window, for any ticket and at
    any instant of computation: pausing a ticket after it was closed
    leaves its 72-hour measure as it was. *)
Theorem pause_after_window_keeps_hours (cuid id reason ticketId : string)
    (now clock start end_ : Date) (st : Store) :
  well_formed st ->
  getTime end_ <= getTime now ->
  effectiveHoursExcludingStops clock ticketId start end_
    (snapshot (pause cuid id reason now st))
  = effectiveHoursExcludingStops clock ticketId start end_ (snapshot st).
Proof.
  intros Hwf Hafter. rewrite snapshot_pause by exact Hwf.
  apply effectiveHours_by_sum. rewrite overlap_sum_app. cbn [overlap_sum].
  rewrite (overlap_sum_after_window clock ticketId start end_) by exact Hafter.
  destruct (String.eqb _ _); lia.
Qed.

(** A ticket closed at hour 10 and paused at hour 12, measured at hour 50. *)
Lemma pause_after_window_keeps_hours_witness :
  effectiveHoursExcludingStops (mkDate (50 * HOURS)) "F1" (mkDate 0) (mkDate (10 * HOURS))
    (snapshot (pause "a" "F1" "late" (mkDate (12 * HOURS)) empty))
  = effectiveHoursExcludingStops (mkDate (50 * HOURS)) "F1" (mkDate 0) (mkDate (10 * HOURS))
      (snapshot empty).
Proof.
  apply pause_after_window_keeps_hours.
  - split; [constructor | intros l []].
  - vm_compute. discriminate.
Defined.

End LedgerHoursFacts.

(** * The report on doubles *)

Lemma stored_truthy (iso : Date -> string) (d : option Date) :
  (forall d, iso d <> ""%string) ->
  Double.truthy (Double.stored_milestone iso d) = truthy d.
Proof.
  intros Hiso. destruct d as [d |]; [| reflexivity].
  cbn [Double.stored_milestone Double.truthy truthy].
  now rewrite (proj2 (String.eqb_neq (iso d) "") (Hiso d)).
Qed.

(** A requisition read back from disk passes a filter of [computeTop8]
    exactly when it passed it in memory. *)
Lemma stored_passes_filters (iso : Date -> string) (r : Requisition.t) :
  (forall d, iso d <> ""%string) ->
  Double.keyRole_interviewed_signed (Double.stored iso r) = keyRole_interviewed_signed r
  /\ Double.approved_onboarded (Double.stored iso r) = approved_onboarded r.
Proof.
  intros Hiso.
  unfold Double.keyRole_interviewed_signed, Double.approved_onboarded,
    keyRole_interviewed_signed, approved_onboarded, Double.stored.
  cbn [Double.RawRequisition.keyRole Double.RawRequisition.approvedAt
         Double.RawRequisition.firstInterviewAt Double.RawRequisition.offerSignedAt
         Double.RawRequisition.onboardedAt].
  rewrite !stored_truthy by exact Hiso. split; reflexivity.
Qed.

Module DoubleFacts.
Import Floats.
Import Double.

Arguments ofZ : simpl never.

(** ** The average *)

Lemma filter_is_finite (nums : list float) :
  filter is_finite nums = finite_elements nums.
Proof.
  induction nums as [| x rest IH]; [reflexivity |].
  cbn [filter finite_elements]. unfold is_finite at 1.
  destruct (is_nan x || is_infinity x); cbn [negb]; now rewrite IH.
Qed.

Lemma avg_by_filter (l l' : list float) :
  filter is_finite l = filter is_finite l' -> avg l = avg l'.
Proof. intros H. unfold avg. now rewrite H. Qed.

Lemma avg_finite_elements (nums : list float) :
  avg nums
  = match finite_elements nums with
    | [] => None
    | xs => Some (sum_left xs / ofNat (length xs))%float
    end.
Proof.
  unfold avg. rewrite filter_is_finite.
  destruct (finite_elements nums); reflexivity.
Qed.




(** ** The rates *)

(** A report, when there is one, carries the three constants that do not
    read the requisitions. *)
Lemma computeTop8_report (now : Date) (ticketList : list Ticket.t)
    (reqs : list RawRequisition.t) (enps : list ENPSResponse.t)
    (stopClocks : list StopClock.t) (report : Report.t) :
  computeTop8 now ticketList reqs enps stopClocks = Return report ->
  Report.close72Rate report = close72Rate now ticketList stopClocks
  /\ Report.poolMultiple report = poolMultiple ticketList
  /\ Report.eNPS report = eNPS enps.
Proof.
  unfold computeTop8. destruct (ttp reqs) as [p | e]; [| discriminate].
  destruct (ttf reqs) as [f | e]; [| discriminate].
  cbn [bind]. intros [= <-]. auto.
Qed.

(** What C3 states fails: of 40 Fairness tickets, 23 closed within 72
    hours, [round(100 * 23 / 40)] is 58, in exact arithmetic and on
    doubles alike, and [close72Rate] is 57, the double [(23 / 40) * 100]
    lying just below 57.5. *)
Lemma close72Rate_of_23_in_40 :
  count_if is_fairness (fairness_tickets 23 40) = 40%nat
  /\ count_if (fairness_closed_in_72h (mkDate 0) []) (fairness_tickets 23 40) = 23%nat
  /\ close72Rate (mkDate 0) (fairness_tickets 23 40) [] = Some 57%float
  /\ Num.round_half_up (100 * inject_Z 23 / inject_Z 40) = 58
  /\ Math_round (100 * ofNat 23 / ofNat 40)%float = 58%float
  /\ ((ofNat 23 / ofNat 40) * 100 <? 57.5)%float = true.
Proof.
  repeat split; vm_compute; reflexivity.
Qed.

(** C3, amended. [close72Rate] is [null] exactly when there is no
    Fairness ticket; otherwise it is [Math.round] of the double
    [(n / f) * 100], where [f] counts the Fairness tickets, closed or not,
    and [n] those of them that are closed with an effective duration over
    [createdAt, closedAt], stop intervals of the ticket excluded, of at
    most 72 hours. Every report carries this value. *)
Theorem close72Rate_rounds_the_double (now : Date) (ticketList : list Ticket.t)
    (stopClocks : list StopClock.t) :
  (count_if is_fairness ticketList = O <-> close72Rate now ticketList stopClocks = None)
  /\ (count_if is_fairness ticketList <> O ->
      close72Rate now ticketList stopClocks
      = Some (Math_round
                ((ofNat (count_if (fairness_closed_in_72h now stopClocks) ticketList)
                  / ofNat (count_if is_fairness ticketList)) * 100))%float)
  /\ (forall reqs enps report,
        computeTop8 now ticketList reqs enps stopClocks = Return report ->
        Report.close72Rate report = close72Rate now ticketList stopClocks).
Proof.
  split; [| split].
  - unfold close72Rate. rewrite fairness_length.
    destruct (Nat.ltb_spec 0 (count_if is_fairness ticketList)); split;
      try discriminate; try reflexivity; lia.
  - intros Hne. unfold close72Rate. rewrite fairness_length, within72_count.
    destruct (Nat.ltb_spec 0 (count_if is_fairness ticketList)); [reflexivity | lia].
  - intros reqs enps report H. now apply computeTop8_report in H.
Qed.

(** One of two Fairness tickets closed within 72 hours: a rate of 50. *)
Lemma close72Rate_rounds_the_double_witness :
  close72Rate (mkDate 0) (fairness_tickets 1 2) [] = Some 50%float.
Proof.
  rewrite (proj1 (proj2 (close72Rate_rounds_the_double (mkDate 0) (fairness_tickets 1 2) []))).
  - vm_compute. reflexivity.
  - vm_compute. discriminate.
Defined.

(** What C6 states fails on doubles: with 8 promoters and 5 detractors
    among 24 responses, [round((8/24 - 5/24) * 100)] is 13 and [eNPS] is
    12, the double lying just below 12.5. *)
Lemma eNPS_of_8_and_5_in_24 :
  count_if is_promoter (responses 8 5 24) = 8%nat
  /\ count_if is_detractor (responses 8 5 24) = 5%nat
  /\ length (responses 8 5 24) = 24%nat
  /\ eNPS (responses 8 5 24) = Some 12%float
  /\ Num.round_half_up ((inject_Z 8 / inject_Z 24 - inject_Z 5 / inject_Z 24) * 100) = 13
  /\ (((ofNat 8 / ofNat 24) - (ofNat 5 / ofNat 24)) * 100 <? 12.5)%float = true.
Proof.
  repeat split; vm_compute; reflexivity.
Qed.

(** C6, amended. Without a response [eNPS] is [null]; with at least one
    it is [Math.round] of the double
    [((promoters / total) - (detractors / total)) * 100], where promoters
    are the responses with a score of at least 9 and detractors those with
    a score of at most 6. The scores 10, 9, 9, 8, 7, 6, 0 give 14. Every
    report carries this value. *)
Theorem eNPS_rounds_the_double (enps : list ENPSResponse.t) :
  (enps = [] <-> eNPS enps = None)
  /\ (enps <> [] ->
      eNPS enps
      = Some (Math_round
                (((ofNat (count_if is_promoter enps) / ofNat (length enps))
                  - (ofNat (count_if is_detractor enps) / ofNat (length enps)))
                 * 100))%float)
  /\ eNPS demoENPS = Some 14%float
  /\ (forall now ticketList reqs stopClocks report,
        computeTop8 now ticketList reqs enps stopClocks = Return report ->
        Report.eNPS report = eNPS enps).
Proof.
  split; [| split; [| split]].
  - unfold eNPS, total. destruct enps; split; try discriminate; reflexivity.
  - intros Hne. unfold eNPS, total, promoters, detractors.
    rewrite !length_filter_count_if.
    destruct enps; [congruence | reflexivity].
  - vm_compute. reflexivity.
  - intros now ticketList reqs stopClocks report H. now apply computeTop8_report in H.
Qed.

(** Two promoters and one detractor among four responses: a score of 25. *)
Lemma eNPS_rounds_the_double_witness :
  eNPS (responses 2 1 4) = Some 25%float.
Proof.
  rewrite (proj1 (proj2 (eNPS_rounds_the_double (responses 2 1 4)))).
  - vm_compute. reflexivity.
  - vm_compute. discriminate.
Defined.

(** ** The two averages over requisitions *)

Lemma hours_between_nan (later earlier : milestone) :
  time_value later = None \/ time_value earlier = None ->
  is_finite (hours_between later earlier) = false.
Proof.
  unfold hours_between.
  destruct (time_value later), (time_value earlier); intros [H | H];
    try discriminate; vm_compute; reflexivity.
Qed.

(** Behind a filter of [computeTop8] both milestones are truthy, and the
    callback of [map] throws exactly when one of them is a string; the
    value it returns is never [null]. *)
Lemma callback_outcome (later earlier : milestone) :
  truthy later && truthy earlier = true ->
  (d <- diffHours later earlier ;; non_null d)
  = match getTime_error later earlier with
    | Some e => Throw e
    | None => Return (hours_between later earlier)
    end.
Proof.
  intros H. unfold diffHours. rewrite H.
  destruct later, earlier; try discriminate H; reflexivity.
Qed.

Lemma mapM_outcome {A B} (f : A -> completion B) (err : A -> option string) (g : A -> B)
    (l : list A) :
  (forall x, In x l -> f x = match err x with Some e => Throw e | None => Return (g x) end) ->
  mapM f l = match first_error err l with Some e => Throw e | None => Return (map g l) end.
Proof.
  induction l as [| x rest IH]; intros Hf; [reflexivity |].
  cbn [mapM first_error map]. rewrite (Hf x) by now left.
  destruct (err x); [reflexivity |]. cbn [bind].
  rewrite IH by (intros y Hy; apply Hf; now right).
  destruct (first_error err rest); reflexivity.
Qed.

Lemma first_error_none {A} (err : A -> option string) (l : list A) :
  first_error err l = None <-> forall x, In x l -> err x = None.
Proof.
  induction l as [| x rest IH]; cbn [first_error].
  - split; [intros _ x [] | reflexivity].
  - destruct (err x) eqn:E.
    + split; [discriminate |]. intros H. rewrite (H x) in E by now left. discriminate.
    + rewrite IH. split.
      * intros H y [<- | Hy]; auto.
      * intros H y Hy. apply H. now right.
Qed.

Lemma first_error_In {A} (err : A -> option string) (l : list A) (e : string) :
  first_error err l = Some e -> exists x, In x l /\ err x = Some e.
Proof.
  induction l as [| x rest IH]; cbn [first_error]; [discriminate |].
  destruct (err x) eqn:E.
  - intros [= <-]. exists x. split; [now left | exact E].
  - intros H. destruct (IH H) as (y & Hy & Hey). exists y. split; [now right | exact Hey].
Qed.

Lemma ttp_outcome (reqs : list RawRequisition.t) :
  ttp reqs
  = match first_error (fun r => getTime_error (RawRequisition.offerSignedAt r)
                                              (RawRequisition.firstInterviewAt r))
                      (filter keyRole_interviewed_signed reqs) with
    | Some e => Throw e
    | None =>
        Return (avg (map (fun r => hours_between (RawRequisition.offerSignedAt r)
                                                 (RawRequisition.firstInterviewAt r))
                         (filter keyRole_interviewed_signed reqs)))
    end.
Proof.
  unfold ttp.
  rewrite (mapM_outcome _
             (fun r => getTime_error (RawRequisition.offerSignedAt r)
                                     (RawRequisition.firstInterviewAt r))
             (fun r => hours_between (RawRequisition.offerSignedAt r)
                                     (RawRequisition.firstInterviewAt r))).
  - destruct (first_error _ _); reflexivity.
  - intros r Hr. apply filter_In in Hr as [_ Hsel]. apply callback_outcome.
    unfold keyRole_interviewed_signed in Hsel.
    apply andb_prop in Hsel as [Hk Ho]. apply andb_prop in Hk as [_ Hi].
    now rewrite Ho, Hi.
Qed.

Lemma ttf_outcome (reqs : list RawRequisition.t) :
  ttf reqs
  = match first_error (fun r => getTime_error (RawRequisition.onboardedAt r)
                                              (RawRequisition.approvedAt r))
                      (filter approved_onboarded reqs) with
    | Some e => Throw e
    | None =>
        Return (avg (map (fun r => hours_between (RawRequisition.onboardedAt r)
                                                 (RawRequisition.approvedAt r))
                         (filter approved_onboarded reqs)))
    end.
Proof.
  unfold ttf.
  rewrite (mapM_outcome _
             (fun r => getTime_error (RawRequisition.onboardedAt r)
                                     (RawRequisition.approvedAt r))
             (fun r => hours_between (RawRequisition.onboardedAt r)
                                     (RawRequisition.approvedAt r))).
  - destruct (first_error _ _); reflexivity.
  - intros r Hr. apply filter_In in Hr as [_ Hsel]. apply callback_outcome.
    unfold approved_onboarded in Hsel. apply andb_prop in Hsel as [Ha Ho].
    now rewrite Ho, Ha.
Qed.

(** Of the hours that the callback computes, the finite ones are those
    of the requisitions whose two milestones are instants. *)
Lemma finite_ttf_hours (reqs : list RawRequisition.t) :
  filter is_finite
    (map (fun r => hours_between (RawRequisition.onboardedAt r) (RawRequisition.approvedAt r))
         (filter approved_onboarded reqs))
  = filter is_finite (ttf_durations reqs).
Proof.
  induction reqs as [| r rest IH]; [reflexivity |].
  destruct r as [id ticketId keyRole a fi os o].
  cbn [filter ttf_durations RawRequisition.approvedAt RawRequisition.onboardedAt].
  unfold approved_onboarded at 1.
  cbn [RawRequisition.approvedAt RawRequisition.onboardedAt].
  destruct a as [| da | | sa], o as [| do | | so]; cbn [truthy andb]; try exact IH;
    repeat match goal with
           | |- context [negb (String.eqb ?s "")] =>
               destruct (negb (String.eqb s "")); cbn [andb]
           end;
    try exact IH;
    cbn [map filter RawRequisition.approvedAt RawRequisition.onboardedAt];
    try (rewrite hours_between_nan by (cbn; auto); exact IH).
  fold (signed_hours da do). rewrite IH.
  change (hours_between (instant do) (instant da)) with (signed_hours da do).
  reflexivity.
Qed.

Lemma finite_ttp_hours (reqs : list RawRequisition.t) :
  filter is_finite
    (map (fun r => hours_between (RawRequisition.offerSignedAt r)
                                 (RawRequisition.firstInterviewAt r))
         (filter keyRole_interviewed_signed reqs))
  = filter is_finite (ttp_durations reqs).
Proof.
  induction reqs as [| r rest IH]; [reflexivity |].
  destruct r as [id ticketId keyRole a fi os o].
  cbn [filter ttp_durations RawRequisition.keyRole RawRequisition.firstInterviewAt
         RawRequisition.offerSignedAt].
  unfold keyRole_interviewed_signed at 1.
  cbn [RawRequisition.keyRole RawRequisition.firstInterviewAt RawRequisition.offerSignedAt].
  destruct keyRole; cbn [andb]; [| exact IH].
  destruct fi as [| di | | si], os as [| do | | so]; cbn [truthy andb]; try exact IH;
    repeat match goal with
           | |- context [negb (String.eqb ?s "")] =>
               destruct (negb (String.eqb s "")); cbn [andb]
           end;
    try exact IH;
    cbn [map filter RawRequisition.firstInterviewAt RawRequisition.offerSignedAt];
    try (rewrite hours_between_nan by (cbn; auto); exact IH).
  rewrite IH.
  change (hours_between (instant do) (instant di)) with (signed_hours di do).
  reflexivity.
Qed.

(** [computeTop8], case by case: the error of the first requisition
    that reaches [getTime] with a string, in [ttp] and then in [ttf], and
    without one this report. *)
Lemma computeTop8_outcome (now : Date) (ticketList : list Ticket.t)
    (reqs : list RawRequisition.t) (enps : list ENPSResponse.t)
    (stopClocks : list StopClock.t) :
  computeTop8 now ticketList reqs enps stopClocks
  = match first_error (fun r => getTime_error (RawRequisition.offerSignedAt r)
                                              (RawRequisition.firstInterviewAt r))
                      (filter keyRole_interviewed_signed reqs) with
    | Some e => Throw e
    | None =>
        match first_error (fun r => getTime_error (RawRequisition.onboardedAt r)
                                                  (RawRequisition.approvedAt r))
                          (filter approved_onboarded reqs) with
        | Some e => Throw e
        | None =>
            Return (Report.mk (avg (ttp_durations reqs)) (avg (ttf_durations reqs))
                              (close72Rate now ticketList stopClocks)
                              (poolMultiple ticketList) (eNPS enps))
        end
    end.
Proof.
  unfold computeTop8. rewrite ttp_outcome, ttf_outcome.
  destruct (first_error _ (filter keyRole_interviewed_signed reqs)); [reflexivity |].
  cbn [bind].
  destruct (first_error _ (filter approved_onboarded reqs)); [reflexivity |].
  cbn [bind].
  rewrite (avg_by_filter _ _ (finite_ttp_hours reqs)).
  rewrite (avg_by_filter _ _ (finite_ttf_hours reqs)). reflexivity.
Qed.

Lemma getTime_error_none (later earlier : milestone) :
  getTime_error later earlier = None <-> is_text later || is_text earlier = false.
Proof.
  unfold getTime_error. destruct (is_text later), (is_text earlier); cbn; split; congruence.
Qed.

(** No requisition reaches [getTime] with a string exactly when neither
    [ttp] nor [ttf] has a first error. *)
Lemma no_error_iff (reqs : list RawRequisition.t) :
  (forall r, In r reqs -> reaches_text r = false)
  <-> first_error (fun r => getTime_error (RawRequisition.offerSignedAt r)
                                          (RawRequisition.firstInterviewAt r))
                  (filter keyRole_interviewed_signed reqs) = None
      /\ first_error (fun r => getTime_error (RawRequisition.onboardedAt r)
                                             (RawRequisition.approvedAt r))
                     (filter approved_onboarded reqs) = None.
Proof.
  rewrite !first_error_none. split.
  - intros Hnone. split; intros r Hr; apply filter_In in Hr as [Hin Hsel];
      apply getTime_error_none; specialize (Hnone r Hin); unfold reaches_text in Hnone;
      rewrite Hsel in Hnone; apply orb_false_elim in Hnone as [Hp Hf]; cbn [andb] in *.
    + now rewrite orb_comm.
    + destruct (approved_onboarded r) eqn:E; [| discriminate Hsel].
      cbn [andb] in Hf. now rewrite orb_comm.
  - intros [Hp Hf] r Hin. unfold reaches_text. apply orb_false_intro.
    + destruct (keyRole_interviewed_signed r) eqn:E; [| reflexivity]. cbn [andb].
      rewrite orb_comm. apply getTime_error_none, Hp, filter_In. auto.
    + destruct (approved_onboarded r) eqn:E; [| reflexivity]. cbn [andb].
      rewrite orb_comm. apply getTime_error_none, Hf, filter_In. auto.
Qed.

Lemma revived_never_reaches_text (r : RawRequisition.t) :
  revived r -> reaches_text r = false.
Proof.
  intros (Ha & Hi & Hs & Ho). unfold reaches_text. rewrite Ha, Hi, Hs, Ho.
  cbn [orb]. now rewrite !andb_false_r.
Qed.



(** ** The demo requisitions *)

Lemma signed_hours_of_hoursAgo (now : Date) (a b : Z) :
  signed_hours (hoursAgo now a) (hoursAgo now b) = (ofZ ((a - b) * HOURS) / ofZ HOURS)%float.
Proof.
  unfold signed_hours, hoursAgo. cbn [getTime].
  now replace (getTime now - b * HOURS - (getTime now - a * HOURS)) with ((a - b) * HOURS)
    by ring.
Qed.

(** On doubles too the demo requisitions, in memory, give a [ttp] of 36
    hours and a [ttf] of 230 hours, whatever the instant of the seeding:
    the four durations and their sum are whole numbers. *)
Lemma demo_requisitions_on_doubles (now clock : Date) (ticketList : list Ticket.t)
    (enps : list ENPSResponse.t) (stopClocks : list StopClock.t) :
  exists report,
    computeTop8 clock ticketList (map in_memory (demoReqs now)) enps stopClocks
    = Return report
    /\ Report.ttp report = Some 36%float
    /\ Report.ttf report = Some 230%float.
Proof.
  rewrite computeTop8_outcome. eexists. split; [reflexivity |].
  cbn [Report.ttp Report.ttf demoReqs map in_memory in_memory_milestone
         ttp_durations ttf_durations
         Requisition.id Requisition.ticketId Requisition.keyRole Requisition.approvedAt
         Requisition.firstInterviewAt Requisition.offerSignedAt Requisition.onboardedAt
         RawRequisition.keyRole RawRequisition.approvedAt RawRequisition.firstInterviewAt
         RawRequisition.offerSignedAt RawRequisition.onboardedAt].
  rewrite !signed_hours_of_hoursAgo. split; vm_compute; reflexivity.
Qed.

(** ** Requisitions read back from disk *)

Lemma existsb_pointwise {A} (p q : A -> bool) (l : list A) :
  (forall x, p x = q x) -> existsb p l = existsb q l.
Proof.
  intros H. induction l as [| x rest IH]; [reflexivity |].
  cbn [existsb]. now rewrite H, IH.
Qed.

Lemma existsb_orb {A} (p q : A -> bool) (l : list A) :
  existsb (fun x => p x || q x) l = existsb p l || existsb q l.
Proof.
  induction l as [| x rest IH]; [reflexivity |].
  cbn [existsb]. rewrite IH. destruct (p x), (q x), (existsb p rest); reflexivity.
Qed.

Lemma stored_truthy_text (iso : Date -> string) (d : option Date) :
  truthy (stored_milestone iso d) = true -> is_text (stored_milestone iso d) = true.
Proof. destruct d; [reflexivity | discriminate]. Qed.

(** On requisitions read back from disk every callback that is reached
    throws, and its receiver [a] is the string. *)
Lemma stored_first_error (later earlier : RawRequisition.t -> milestone)
    (sel : RawRequisition.t -> bool) (iso : Date -> string) (loaded : list Requisition.t) :
  (forall r, sel (stored iso r) = true -> is_text (later (stored iso r)) = true) ->
  first_error (fun r => getTime_error (later r) (earlier r))
              (filter sel (map (stored iso) loaded))
  = if existsb (fun r => sel (stored iso r)) loaded
    then Some "TypeError: a.getTime is not a function"%string
    else None.
Proof.
  intros Htext. induction loaded as [| r rest IH]; [reflexivity |].
  cbn [map filter existsb]. destruct (sel (stored iso r)) eqn:Hsel; [| exact IH].
  cbn [first_error orb]. unfold getTime_error. now rewrite (Htext r Hsel).
Qed.

Lemma stored_no_durations (iso : Date -> string) (loaded : list Requisition.t) :
  ttp_durations (map (stored iso) loaded) = []
  /\ ttf_durations (map (stored iso) loaded) = [].
Proof.
  induction loaded as [| r rest [IHp IHf]]; [split; reflexivity |].
  destruct r as [id ticketId keyRole a fi os o].
  cbn [map stored ttp_durations ttf_durations Requisition.id Requisition.ticketId
         Requisition.keyRole Requisition.approvedAt Requisition.firstInterviewAt
         Requisition.offerSignedAt Requisition.onboardedAt
         RawRequisition.keyRole RawRequisition.approvedAt RawRequisition.firstInterviewAt
         RawRequisition.offerSignedAt RawRequisition.onboardedAt].
  split.
  - destruct keyRole, fi, os; exact IHp.
  - destruct a, o; exact IHf.
Qed.

Lemma in_memory_revived (r : Requisition.t) : revived (in_memory r).
Proof.
  destruct r as [id ticketId keyRole [a |] [fi |] [os |] [o |]]; repeat split.
Qed.

(** X26. After a restart the requisitions are the ones read back from
    [requisitions.json], which [loadStore] does not revive: every
    milestone that was a [Date] is a string. On them [computeTop8]
    throws [TypeError: a.getTime is not a function] as soon as one
    requisition passes the filter of [ttp] or of [ttf], and otherwise
    returns a report whose [ttp] and [ttf] are [null]. On the same
    requisitions in memory, before the restart, it returns a report. *)
Theorem computeTop8_on_stored_requisitions (now : Date) (ticketList : list Ticket.t)
    (loaded : list Requisition.t) (enps : list ENPSResponse.t)
    (stopClocks : list StopClock.t) (iso : Date -> string) :
  (forall d, iso d <> ""%string) ->
  computeTop8 now ticketList (map (stored iso) loaded) enps stopClocks
  = (if existsb enters_an_average loaded
     then Throw "TypeError: a.getTime is not a function"
     else Return (Report.mk None None (close72Rate now ticketList stopClocks)
                            (poolMultiple ticketList) (eNPS enps)))
  /\ exists report,
       computeTop8 now ticketList (map in_memory loaded) enps stopClocks = Return report.
Proof.
  intros Hiso. split.
  - rewrite computeTop8_outcome.
    rewrite (stored_first_error RawRequisition.offerSignedAt RawRequisition.firstInterviewAt
               keyRole_interviewed_signed iso loaded).
    2:{ intros r0 Hsel. unfold keyRole_interviewed_signed in Hsel.
        apply andb_prop in Hsel as [_ Hs]. revert Hs. apply stored_truthy_text. }
    rewrite (stored_first_error RawRequisition.onboardedAt RawRequisition.approvedAt
               approved_onboarded iso loaded).
    2:{ intros r0 Hsel. unfold approved_onboarded in Hsel.
        apply andb_prop in Hsel as [_ Hs]. revert Hs. apply stored_truthy_text. }
    destruct (stored_no_durations iso loaded) as [-> ->].
    assert (Hsplit : existsb enters_an_average loaded
                     = existsb (fun r => keyRole_interviewed_signed (stored iso r)) loaded
                       || existsb (fun r => approved_onboarded (stored iso r)) loaded).
    { rewrite <- existsb_orb. apply existsb_pointwise. intros r.
      destruct (stored_passes_filters iso r Hiso) as [-> ->]. reflexivity. }
    rewrite Hsplit.
    destruct (existsb (fun r => keyRole_interviewed_signed (stored iso r)) loaded);
      [reflexivity |].
    destruct (existsb (fun r => approved_onboarded (stored iso r)) loaded); reflexivity.
  - rewrite computeTop8_outcome.
    assert (Hnone : forall r, In r (map in_memory loaded) -> reaches_text r = false).
    { intros r Hr. apply in_map_iff in Hr as (r0 & <- & _).
      apply revived_never_reaches_text, in_memory_revived. }
    apply no_error_iff in Hnone as [-> ->]. eexists. reflexivity.
Qed.

(** The demo requisitions, written to disk on the first run and read
    back on the next. *)
Lemma computeTop8_on_stored_requisitions_witness :
  computeTop8 (mkDate 0) (demoTickets (mkDate 0))
              (map (stored (fun _ => "2026-01-01T00:00:00.000Z"%string))
                   (demoReqs (mkDate 0)))
              demoENPS []
  = Throw "TypeError: a.getTime is not a function".
Proof.
  refine (proj1 (computeTop8_on_stored_requisitions (mkDate 0) (demoTickets (mkDate 0))
                   (demoReqs (mkDate 0)) demoENPS []
                   (fun _ => "2026-01-01T00:00:00.000Z"%string) _)).
  intros d. discriminate.
Defined.

End DoubleFacts.
